(** * MiniSocketClient (register.py): packet codec, request correlation and
    the receive loop, embedded in Rocq.

    The client frames requests for a length-prefixed binary protocol, keeps a
    table of pending futures keyed by a one-byte sequence number, and runs a
    receive loop that decodes inbound frames and resolves the futures.

    Python objects are modelled as follows.
    - [bytes] is [list byte]; a Python [int] is [Z] (unbounded).
    - A raised exception is the [Raise] outcome of a computation; stateful
      methods are functions [client -> outcome A * client], so that the
      mutations made before an exception is raised are kept, as in Python.
    - [self._pending] is a [gmap Z nat] from sequence numbers to future
      identifiers; the futures themselves live in a store ([futures]), so a
      future that is dropped from the table is still the object its caller
      awaits.
    - A coroutine is modelled by the steps it takes between suspensions:
      [send_msg] up to its final [await fut] is one step, an iteration of
      the receive loop is one step, and [await fut] is read off the future
      in a later state.
    - [msgpack] and [lz4.block] are external libraries.  The codec is
      embedded over their interfaces ([Msgpack], [Lz4Block]); executable
      models of the two wire formats instantiate the interfaces for the
      concrete evaluations. *)

From Stdlib Require Import ZArith Lia List Bool.
From Stdlib Require Import Strings.Byte Strings.String.
From stdpp Require Import base option list gmap strings pretty.

Set Warnings "-register-all".
Local Open Scope Z_scope.

(** ** Bytes and big-endian integers *)

Abbreviation bytes := (list byte).

#[export] Instance byte_eq_decision : EqDecision byte := Byte.byte_eq_dec.

Definition Z_of_byte (b : byte) : Z := Z.of_N (Byte.to_N b).

Definition byte_of_Z (z : Z) : byte :=
  match Byte.of_N (Z.to_N (z mod 256)) with
  | Some b => b
  | None => x00
  end.

(** ** Exceptions and outcomes *)

Inductive exn : Type :=
| RuntimeError (msg : string)
| OverflowError
| AttributeError
| OSError
| LZ4BlockError
| ValueError (msg : string)
| ExtraData
| FormatError
| StackError
| UnicodeDecodeError
| TypeError
| OutsideModel.

Inductive outcome (A : Type) : Type :=
| Ok (a : A)
| Raise (e : exn).
Arguments Ok {A} a.
Arguments Raise {A} e.

Definition obind {A B} (m : outcome A) (k : A -> outcome B) : outcome B :=
  match m with
  | Ok a => k a
  | Raise e => Raise e
  end.

Notation "x <-! m ; k" := (obind m (fun x => k))
  (at level 100, m at next level, right associativity,
   format "'[v' x  <-!  m ; '/' k ']'").

(** [int.to_bytes(n, "big")]: the [n]-byte big-endian form of an unsigned
    integer; [OverflowError] when the integer is negative or needs more than
    [n] bytes. *)
Fixpoint be_digits (n : nat) (v : Z) : bytes :=
  match n with
  | O => []
  | S k => byte_of_Z (v / 256 ^ Z.of_nat k) :: be_digits k v
  end.

Definition to_bytes (n : nat) (v : Z) : outcome bytes :=
  if (0 <=? v) && (v <? 256 ^ Z.of_nat n) then Ok (be_digits n v)
  else Raise OverflowError.

(** [int.from_bytes(bs, "big")]; the empty string gives 0. *)
Definition from_bytes (bs : bytes) : Z :=
  fold_left (fun acc b => acc * 256 + Z_of_byte b) bs 0.

(** Python slice [data[i:j]] for [0 <= i <= j]: never raises, a short
    string gives a short (possibly empty) slice. *)
Definition slice (i j : nat) (data : bytes) : bytes :=
  firstn (j - i) (skipn i data).

(** ** Python values carried as payloads *)

Inductive value : Type :=
| VNone
| VBool (b : bool)
| VInt (z : Z)
| VStr (s : string)
| VBytes (bs : bytes)
| VList (xs : list value)
| VDict (kvs : list (value * value)).

(** ** Interfaces of the external libraries *)

(** [msgpack.packb(payload)] and
    [msgpack.unpackb(bs, raw=False, strict_map_key=False)]. *)
Class Msgpack : Type := {
  packb : value -> outcome bytes;
  unpackb : bytes -> outcome value
}.

(** [lz4.block.decompress(bs, uncompressed_size=n)]. *)
Class Lz4Block : Type := {
  lz4_decompress : bytes -> Z -> outcome bytes
}.

(** ** Packet codec *)

Section Codec.
Context {MP : Msgpack} {LZ : Lz4Block}.

Definition _pack_packet (ver cmd seq opcode : Z) (payload : value)
  : outcome bytes :=
  ver_b <-! to_bytes 1 ver;
  cmd_b <-! to_bytes 2 cmd;
  seq_b <-! to_bytes 1 seq;
  opcode_b <-! to_bytes 2 opcode;
  payload_bytes <-! packb payload;
  let payload_len := Z.land (Z.of_nat (length payload_bytes)) 0xFFFFFF in
  payload_len_b <-! to_bytes 4 payload_len;
  Ok (ver_b ++ cmd_b ++ seq_b ++ opcode_b ++ payload_len_b ++ payload_bytes).

(** The two slices [_unpack_packet] takes from a frame. *)
Definition frame_payload_len (data : bytes) : Z :=
  Z.land (from_bytes (slice 6 10 data)) 0xFFFFFF.

Definition frame_payload_bytes (data : bytes) : bytes :=
  firstn (Z.to_nat (frame_payload_len data)) (skipn 10 data).

(** The decompression attempt: only [LZ4BlockError] is caught. *)
Definition decompress_or_raw (payload_bytes : bytes) : outcome bytes :=
  match lz4_decompress payload_bytes 99999 with
  | Ok d => Ok d
  | Raise LZ4BlockError => Ok payload_bytes
  | Raise e => Raise e
  end.

Definition _unpack_packet (data : bytes) : outcome value :=
  let payload_bytes := frame_payload_bytes data in
  match payload_bytes with
  | [] => Ok VNone
  | _ :: _ =>
      payload_bytes' <-! decompress_or_raw payload_bytes;
      unpackb payload_bytes'
  end.

End Codec.

(** Header fields that fit their widths. *)
Definition fields_fit (ver cmd seq opcode : Z) : Prop :=
  0 <= ver < 256 /\ 0 <= cmd < 65536 /\ 0 <= seq < 256 /\ 0 <= opcode < 65536.

(** The frame [_pack_packet] builds from the serialized payload [s] when
    nothing raises. *)
Definition frame_of (ver cmd seq opcode : Z) (s : bytes) : bytes :=
  be_digits 1 ver ++ be_digits 2 cmd ++ be_digits 1 seq ++ be_digits 2 opcode
  ++ be_digits 4 (Z.land (Z.of_nat (length s)) 0xFFFFFF) ++ s.

(** ** A model of the msgpack wire format

    The fragment covered: nil, booleans, integers, strings, binary strings,
    arrays and maps.  Floats and extension types are not represented in
    [value]; on their type bytes the decoder answers [OutsideModel], which
    is not a Python exception but the boundary of this model. *)

Module MsgpackModel.

Definition incomplete_input : exn := ValueError "Unpack failed: incomplete input".

Definition exceeds (n : Z) (limit_name : string) (limit : Z) : exn :=
  ValueError (pretty n +:+ " exceeds " +:+ limit_name +:+ "(" +:+ pretty limit +:+ ")").

Definition pack_int (z : Z) : outcome bytes :=
  if z <? - 2 ^ 63 then Raise OverflowError
  else if z <? - 2 ^ 31 then Ok (xd3 :: be_digits 8 z)
  else if z <? - 2 ^ 15 then Ok (xd2 :: be_digits 4 z)
  else if z <? - 2 ^ 7 then Ok (xd1 :: be_digits 2 z)
  else if z <? - 32 then Ok (xd0 :: be_digits 1 z)
  else if z <? 2 ^ 7 then Ok (be_digits 1 z)
  else if z <? 2 ^ 8 then Ok (xcc :: be_digits 1 z)
  else if z <? 2 ^ 16 then Ok (xcd :: be_digits 2 z)
  else if z <? 2 ^ 32 then Ok (xce :: be_digits 4 z)
  else if z <? 2 ^ 64 then Ok (xcf :: be_digits 8 z)
  else Raise OverflowError.

Definition str_header (n : Z) : outcome bytes :=
  if n <? 32 then Ok [byte_of_Z (0xa0 + n)]
  else if n <? 2 ^ 8 then Ok (xd9 :: be_digits 1 n)
  else if n <? 2 ^ 16 then Ok (xda :: be_digits 2 n)
  else if n <? 2 ^ 32 then Ok (xdb :: be_digits 4 n)
  else Raise (ValueError "unicode string is too large").

Definition bin_header (n : Z) : outcome bytes :=
  if n <? 2 ^ 8 then Ok (xc4 :: be_digits 1 n)
  else if n <? 2 ^ 16 then Ok (xc5 :: be_digits 2 n)
  else if n <? 2 ^ 32 then Ok (xc6 :: be_digits 4 n)
  else Raise (ValueError "bytes object is too large").

Definition array_header (n : Z) : outcome bytes :=
  if n <? 16 then Ok [byte_of_Z (0x90 + n)]
  else if n <? 2 ^ 16 then Ok (xdc :: be_digits 2 n)
  else if n <? 2 ^ 32 then Ok (xdd :: be_digits 4 n)
  else Raise (ValueError "list is too large").

Definition map_header (n : Z) : outcome bytes :=
  if n <? 16 then Ok [byte_of_Z (0x80 + n)]
  else if n <? 2 ^ 16 then Ok (xde :: be_digits 2 n)
  else if n <? 2 ^ 32 then Ok (xdf :: be_digits 4 n)
  else Raise (ValueError "dict is too large").

Fixpoint pack_each (pk : value -> outcome bytes) (xs : list value)
  : outcome bytes :=
  match xs with
  | [] => Ok []
  | x :: xs' =>
      b <-! pk x;
      bs <-! pack_each pk xs';
      Ok (b ++ bs)
  end.

Fixpoint pack_items (pk : value -> outcome bytes) (kvs : list (value * value))
  : outcome bytes :=
  match kvs with
  | [] => Ok []
  | (k, v) :: kvs' =>
      kb <-! pk k;
      vb <-! pk v;
      bs <-! pack_items pk kvs';
      Ok (kb ++ vb ++ bs)
  end.

(** [Packer._pack(o, nest_limit)]: [nest] is [nest_limit + 1]; with none
    left the packer raises. *)
Fixpoint pack (nest : nat) (o : value) : outcome bytes :=
  match nest with
  | O => Raise (ValueError "recursion limit exceeded.")
  | S nest' =>
      match o with
      | VNone => Ok [xc0]
      | VBool true => Ok [xc3]
      | VBool false => Ok [xc2]
      | VInt z => pack_int z
      | VBytes bs =>
          h <-! bin_header (Z.of_nat (length bs));
          Ok (h ++ bs)
      | VStr s =>
          let bs := list_byte_of_string s in
          h <-! str_header (Z.of_nat (length bs));
          Ok (h ++ bs)
      | VDict kvs =>
          h <-! map_header (Z.of_nat (length kvs));
          bs <-! pack_items (pack nest') kvs;
          Ok (h ++ bs)
      | VList xs =>
          h <-! array_header (Z.of_nat (length xs));
          bs <-! pack_each (pack nest') xs;
          Ok (h ++ bs)
      end
  end.

(** The levels of nesting [packb] accepts by default: 1024 in the current
    releases of msgpack (512 in the releases up to 1.1). *)
Definition recurse_levels : nat := 1024.

Definition model_packb (o : value) : outcome bytes := pack recurse_levels o.

(** Strict UTF-8 (what [bytes.decode("utf-8")] accepts). *)
Definition in_range (lo hi : Z) (b : byte) : bool :=
  (lo <=? Z_of_byte b) && (Z_of_byte b <=? hi).

Fixpoint utf8_valid (bs : bytes) : bool :=
  match bs with
  | [] => true
  | b0 :: r0 =>
      if in_range 0x00 0x7f b0 then utf8_valid r0
      else
        match r0 with
        | [] => false
        | b1 :: r1 =>
            if in_range 0xc2 0xdf b0 then in_range 0x80 0xbf b1 && utf8_valid r1
            else
              match r1 with
              | [] => false
              | b2 :: r2 =>
                  if in_range 0xe0 0xef b0 then
                    (if in_range 0xe0 0xe0 b0 then in_range 0xa0 0xbf b1
                     else if in_range 0xed 0xed b0 then in_range 0x80 0x9f b1
                     else in_range 0x80 0xbf b1)
                    && in_range 0x80 0xbf b2 && utf8_valid r2
                  else
                    match r2 with
                    | [] => false
                    | b3 :: r3 =>
                        in_range 0xf0 0xf4 b0
                        && (if in_range 0xf0 0xf0 b0 then in_range 0x90 0xbf b1
                            else if in_range 0xf4 0xf4 b0 then in_range 0x80 0x8f b1
                            else in_range 0x80 0xbf b1)
                        && in_range 0x80 0xbf b2 && in_range 0x80 0xbf b3
                        && utf8_valid r3
                    end
              end
        end
  end.

(** Reading [n] bytes of the input, or running out of it. *)
Definition take (n : Z) (bs : bytes) : outcome (bytes * bytes) :=
  if n <=? Z.of_nat (length bs)
  then Ok (firstn (Z.to_nat n) bs, skipn (Z.to_nat n) bs)
  else Raise incomplete_input.

Definition take_uint (n : nat) (bs : bytes) : outcome (Z * bytes) :=
  r <-! take (Z.of_nat n) bs;
  Ok (from_bytes (fst r), snd r).

Definition take_int (n : nat) (bs : bytes) : outcome (Z * bytes) :=
  r <-! take_uint n bs;
  let u := fst r in
  let m := 256 ^ Z.of_nat n in
  Ok (if u <? m / 2 then u else u - m, snd r).

Definition take_str (n : Z) (bs : bytes) : outcome (value * bytes) :=
  r <-! take n bs;
  if utf8_valid (fst r) then Ok (VStr (string_of_list_byte (fst r)), snd r)
  else Raise UnicodeDecodeError.

Definition take_bin (n : Z) (bs : bytes) : outcome (value * bytes) :=
  r <-! take n bs;
  Ok (VBytes (fst r), snd r).

(** Keys of a Python dict: hashable objects, compared with [==]
    ([True == 1] and [False == 0]). *)
Definition hashable (k : value) : bool :=
  match k with
  | VList _ | VDict _ => false
  | _ => true
  end.

Definition key_eqb (a b : value) : bool :=
  match a, b with
  | VNone, VNone => true
  | VBool x, VBool y => Bool.eqb x y
  | VBool x, VInt z | VInt z, VBool x => z =? (if x then 1 else 0)
  | VInt x, VInt y => x =? y
  | VStr x, VStr y => String.eqb x y
  | VBytes x, VBytes y => bool_decide (x = y)
  | _, _ => false
  end.

(** [d[k] = v]: an equal key keeps its place and its first key object. *)
Fixpoint dict_set (kvs : list (value * value)) (k v : value)
  : list (value * value) :=
  match kvs with
  | [] => [(k, v)]
  | (k', v') :: rest =>
      if key_eqb k' k then (k', v) :: rest else (k', v') :: dict_set rest k v
  end.

Section Items.
Variable one : bytes -> outcome (value * bytes).

Fixpoint unpack_elems (n : nat) (bs : bytes) (acc : list value)
  : outcome (list value * bytes) :=
  match n with
  | O => Ok (acc, bs)
  | S k =>
      r <-! one bs;
      unpack_elems k (snd r) (acc ++ [fst r])
  end.

Fixpoint unpack_pairs (n : nat) (bs : bytes) (acc : list (value * value))
  : outcome (list (value * value) * bytes) :=
  match n with
  | O => Ok (acc, bs)
  | S k =>
      rk <-! one bs;
      rv <-! one (snd rk);
      if hashable (fst rk)
      then unpack_pairs k (snd rv) (dict_set acc (fst rk) (fst rv))
      else Raise TypeError
  end.

(** [unpackb] takes the limits of the unpacker from the length [total] of
    its input: an array may announce [total] objects, a map [total // 2]
    pairs.  A header that announces more raises [ValueError] before any of
    the objects is read; one that announces no more than that, but more
    than the input holds, runs out of input after the objects that are
    there. *)
Definition unpack_array (total n : Z) (bs : bytes) : outcome (value * bytes) :=
  if n >? total then Raise (exceeds n "max_array_len" total)
  else
    r <-! unpack_elems (Z.to_nat n) bs [];
    Ok (VList (fst r), snd r).

Definition unpack_map (total n : Z) (bs : bytes) : outcome (value * bytes) :=
  if n >? total / 2 then Raise (exceeds n "max_map_len" (total / 2))
  else
    r <-! unpack_pairs (Z.to_nat n) bs [];
    Ok (VDict (fst r), snd r).

End Items.

(** One object of an input of [total] bytes; [depth] bounds the nesting
    of non-empty containers (the unpacker's stack of 1024 entries). *)
Fixpoint unpack_obj (total : Z) (depth : nat) (bs : bytes)
  : outcome (value * bytes) :=
  let nested (n : Z) (rest : bytes)
        (k : (bytes -> outcome (value * bytes)) -> Z -> Z -> bytes ->
             outcome (value * bytes))
        (empty : value) : outcome (value * bytes) :=
    if n =? 0 then Ok (empty, rest)
    else match depth with
         | O => Raise StackError
         | S d => k (unpack_obj total d) total n rest
         end in
  match bs with
  | [] => Raise incomplete_input
  | b :: rest =>
      let t := Z_of_byte b in
      if t <=? 0x7f then Ok (VInt t, rest)
      else if t <=? 0x8f then nested (t - 0x80) rest unpack_map (VDict [])
      else if t <=? 0x9f then nested (t - 0x90) rest unpack_array (VList [])
      else if t <=? 0xbf then take_str (t - 0xa0) rest
      else if 0xe0 <=? t then Ok (VInt (t - 256), rest)
      else
        match b with
        | xc0 => Ok (VNone, rest)
        | xc1 => Raise FormatError
        | xc2 => Ok (VBool false, rest)
        | xc3 => Ok (VBool true, rest)
        | xc4 => r <-! take_uint 1 rest; take_bin (fst r) (snd r)
        | xc5 => r <-! take_uint 2 rest; take_bin (fst r) (snd r)
        | xc6 => r <-! take_uint 4 rest; take_bin (fst r) (snd r)
        | xcc => r <-! take_uint 1 rest; Ok (VInt (fst r), snd r)
        | xcd => r <-! take_uint 2 rest; Ok (VInt (fst r), snd r)
        | xce => r <-! take_uint 4 rest; Ok (VInt (fst r), snd r)
        | xcf => r <-! take_uint 8 rest; Ok (VInt (fst r), snd r)
        | xd0 => r <-! take_int 1 rest; Ok (VInt (fst r), snd r)
        | xd1 => r <-! take_int 2 rest; Ok (VInt (fst r), snd r)
        | xd2 => r <-! take_int 4 rest; Ok (VInt (fst r), snd r)
        | xd3 => r <-! take_int 8 rest; Ok (VInt (fst r), snd r)
        | xd9 => r <-! take_uint 1 rest; take_str (fst r) (snd r)
        | xda => r <-! take_uint 2 rest; take_str (fst r) (snd r)
        | xdb => r <-! take_uint 4 rest; take_str (fst r) (snd r)
        | xdc => r <-! take_uint 2 rest;
                 nested (fst r) (snd r) unpack_array (VList [])
        | xdd => r <-! take_uint 4 rest;
                 nested (fst r) (snd r) unpack_array (VList [])
        | xde => r <-! take_uint 2 rest;
                 nested (fst r) (snd r) unpack_map (VDict [])
        | xdf => r <-! take_uint 4 rest;
                 nested (fst r) (snd r) unpack_map (VDict [])
        | _ => Raise OutsideModel
        end
  end.

(** [unpackb]: exactly one object, nothing after it. *)
Definition model_unpackb (bs : bytes) : outcome value :=
  r <-! unpack_obj (Z.of_nat (length bs)) 1024 bs;
  match snd r with
  | [] => Ok (fst r)
  | _ :: _ => Raise ExtraData
  end.

End MsgpackModel.

#[export] Instance msgpack_model : Msgpack := {|
  packb := MsgpackModel.model_packb;
  unpackb := MsgpackModel.model_unpackb
|}.

(** ** A model of the LZ4 block format

    A block is a series of sequences: a token, a run of literals, and
    (except in the last sequence) a two-byte little-endian offset with a
    match length.  The checks are those of the reference decoder's general
    path for a whole block and a destination of [cap] bytes.

    The model stops short of the decoder in two places, where it answers
    [OutsideModel] (not a Python exception, but the boundary of the model).
    A match offset of zero is taken by the decoder as a copy of bytes of the
    destination that have not been written, so the output is not a function
    of the block.  And the decoder has shortcuts for a run of fewer than 15
    literals with at least 17 bytes of input and 32 bytes of destination
    left, which skip the test for the last sequence and, for a match of at
    most 18 bytes at an offset of 8 or more, the test on the end of the
    destination; whether they are taken depends on the build of the library
    and on the sequences decoded before, so on the blocks that the general
    path rejects by one of these tests the model does not answer. *)

Module Lz4Model.

(** A length above 14 continues in further bytes, each added to it, up to
    and including the first byte below 255; [min_left] input bytes must
    remain after each byte read. *)
Fixpoint varlen (ip : bytes) (min_left : nat) (acc : Z) : option (Z * bytes) :=
  match ip with
  | [] => None
  | s :: ip' =>
      if (length ip' <? min_left)%nat then None
      else if bool_decide (s = xff) then varlen ip' min_left (acc + 255)
      else Some (acc + Z_of_byte s, ip')
  end.

(** Copy of [n] bytes starting [offset] bytes back, one byte at a time (the
    source may overlap the bytes being written). *)
Fixpoint copy_match (n : nat) (offset : nat) (out : bytes) : bytes :=
  match n with
  | O => out
  | S k => copy_match k offset (out ++ [nth (length out - offset) out x00])
  end.

Fixpoint sequences (fuel : nat) (cap : Z) (ip out : bytes) : outcome bytes :=
  match fuel, ip with
  | S fuel', token :: ip1 =>
      let t := Z_of_byte token in
      match (if t / 16 =? 15 then varlen ip1 15 15 else Some (t / 16, ip1)) with
      | None => Raise LZ4BlockError
      | Some (litlen, ip2) =>
          let op := Z.of_nat (length out) in
          let left := Z.of_nat (length ip2) in
          let shortcut := (t / 16 <? 15) && (17 <=? left) && (op <=? cap - 32) in
          if (op + litlen >? cap - 12) || (litlen >? left - 8) then
            (* last sequence: literals only, to the end of the input *)
            if (litlen =? left) && (op + litlen <=? cap) then Ok (out ++ ip2)
            else if shortcut then Raise OutsideModel
            else Raise LZ4BlockError
          else
            let out1 := out ++ firstn (Z.to_nat litlen) ip2 in
            match skipn (Z.to_nat litlen) ip2 with
            | lo :: hi :: ip4 =>
                let offset := Z_of_byte lo + 256 * Z_of_byte hi in
                match (if t mod 16 =? 15 then varlen ip4 4 15
                       else Some (t mod 16, ip4)) with
                | None => Raise LZ4BlockError
                | Some (ml, ip5) =>
                    let mlen := ml + 4 in
                    let op1 := Z.of_nat (length out1) in
                    if offset >? op1 then Raise LZ4BlockError
                    else if op1 + mlen >? cap - 5 then
                      if shortcut && (t mod 16 <? 15) && (8 <=? offset)
                      then Raise OutsideModel
                      else Raise LZ4BlockError
                    else if offset =? 0 then Raise OutsideModel
                    else sequences fuel' cap ip5
                           (copy_match (Z.to_nat mlen) (Z.to_nat offset) out1)
                end
            | _ => Raise LZ4BlockError
            end
      end
  | _, _ => Raise LZ4BlockError
  end.

(** [lz4.block.decompress(src, uncompressed_size=cap)]: the block without
    a size prefix, decoded into a buffer of [cap] bytes. *)
Definition model_decompress (src : bytes) (cap : Z) : outcome bytes :=
  sequences (length src) cap src [].

End Lz4Model.

#[export] Instance lz4_model : Lz4Block := {|
  lz4_decompress := Lz4Model.model_decompress
|}.

(** ** The socket, the futures and the client object *)

(** What the peer delivers to successive [recv] calls: a chunk of bytes
    (the empty chunk is the orderly shutdown of the peer) or a read error.
    When the list is exhausted the stream is at its end. *)
Inductive recv_event : Type :=
| Chunk (bs : bytes)
| ReadError.

Record socket : Type := mkSocket {
  sock_in : list recv_event;
  sock_out : bytes;          (* everything written by [sendall] *)
  sock_closed : bool;        (* closed locally *)
  sock_send_fails : bool     (* broken towards the peer: [sendall] raises *)
}.

(** An [asyncio] future: [fut.done()] is true once it is not [Pending]. *)
Inductive future : Type :=
| Pending
| Result (v : value)
| Cancelled.

Definition done (f : future) : bool :=
  match f with
  | Pending => false
  | _ => true
  end.

(** A background task: whether its cancellation was requested, and the
    future (if any) it is suspended on. *)
Record task : Type := mkTask {
  task_cancelled : bool;
  task_waiter : option nat
}.

Inductive event : Type :=
| Printed (msg : string) (e : exn)
| Sleep (seconds : Z).

(** The fields of [MiniSocketClient] that the methods below use, together
    with the two parts of the environment they act on: the event loop's
    futures ([futures], indexed by identifier) and the printed lines and
    pauses ([stdout]). *)
Record MiniSocketClient : Type := mkClient {
  _socket : option socket;
  _seq : Z;
  _pending : gmap Z nat;
  is_connected : bool;
  ping_interval : Z;
  _recv_task : option task;
  _ping_task : option task;
  futures : list future;
  stdout : list event
}.

Definition set_socket (s : option socket) (c : MiniSocketClient) :=
  mkClient s (_seq c) (_pending c) (is_connected c)
           (ping_interval c) (_recv_task c) (_ping_task c)
           (futures c) (stdout c).
Definition set_seq (n : Z) (c : MiniSocketClient) :=
  mkClient (_socket c) n (_pending c) (is_connected c)
           (ping_interval c) (_recv_task c) (_ping_task c)
           (futures c) (stdout c).
Definition set_pending (p : gmap Z nat) (c : MiniSocketClient) :=
  mkClient (_socket c) (_seq c) p (is_connected c)
           (ping_interval c) (_recv_task c) (_ping_task c)
           (futures c) (stdout c).
Definition set_is_connected (b : bool) (c : MiniSocketClient) :=
  mkClient (_socket c) (_seq c) (_pending c) b
           (ping_interval c) (_recv_task c) (_ping_task c)
           (futures c) (stdout c).
Definition set_recv_task (t : option task) (c : MiniSocketClient) :=
  mkClient (_socket c) (_seq c) (_pending c) (is_connected c)
           (ping_interval c) t (_ping_task c)
           (futures c) (stdout c).
Definition set_ping_task (t : option task) (c : MiniSocketClient) :=
  mkClient (_socket c) (_seq c) (_pending c) (is_connected c)
           (ping_interval c) (_recv_task c) t
           (futures c) (stdout c).
Definition set_futures (fs : list future) (c : MiniSocketClient) :=
  mkClient (_socket c) (_seq c) (_pending c) (is_connected c)
           (ping_interval c) (_recv_task c) (_ping_task c)
           fs (stdout c).
Definition set_stdout (out : list event) (c : MiniSocketClient) :=
  mkClient (_socket c) (_seq c) (_pending c) (is_connected c)
           (ping_interval c) (_recv_task c) (_ping_task c)
           (futures c) out.

(** [__init__], and the client built with the default ping interval. *)
Definition __init__ (ping_interval : Z) : MiniSocketClient :=
  mkClient None 0 ∅ false ping_interval None None [] [].

Definition init_client : MiniSocketClient := __init__ 30.

(** ** State and exception monad of the methods *)

Definition M (A : Type) : Type := MiniSocketClient -> outcome A * MiniSocketClient.

Definition ret {A} (a : A) : M A := fun c => (Ok a, c).
Definition raise {A} (e : exn) : M A := fun c => (Raise e, c).
Definition lift {A} (o : outcome A) : M A := fun c => (o, c).
Definition get : M MiniSocketClient := fun c => (Ok c, c).
Definition modify (f : MiniSocketClient -> MiniSocketClient) : M unit :=
  fun c => (Ok tt, f c).
Definition bind {A B} (m : M A) (k : A -> M B) : M B :=
  fun c =>
    match m c with
    | (Ok a, c') => k a c'
    | (Raise e, c') => (Raise e, c')
    end.

Notation "x <- m ;; k" := (bind m (fun x => k))
  (at level 100, m at next level, right associativity,
   format "'[v' x  <-  m ;; '/' k ']'").
Notation "m ;;; k" := (bind m (fun _ => k))
  (at level 100, right associativity, format "'[v' m ;;; '/' k ']'").

(** ** Socket operations *)

Definition sock_sendall (packet : bytes) (s : socket) : outcome unit * socket :=
  if sock_closed s || sock_send_fails s then (Raise OSError, s)
  else (Ok tt, mkSocket (sock_in s) (sock_out s ++ packet) (sock_closed s)
                      (sock_send_fails s)).

(** [recv(n)] for [n >= 1]: at most [n] bytes of the next chunk. *)
Definition sock_recv (n : nat) (s : socket) : outcome bytes * socket :=
  if sock_closed s then (Raise OSError, s)
  else
    match sock_in s with
    | [] => (Ok [], s)
    | ReadError :: rest =>
        (Raise OSError,
         mkSocket rest (sock_out s) (sock_closed s) (sock_send_fails s))
    | Chunk [] :: _ => (Ok [], s)
    | Chunk bs :: rest =>
        if (length bs <=? n)%nat then
          (Ok bs, mkSocket rest (sock_out s) (sock_closed s) (sock_send_fails s))
        else
          (Ok (firstn n bs),
           mkSocket (Chunk (skipn n bs) :: rest) (sock_out s) (sock_closed s)
                    (sock_send_fails s))
    end.

(** [shutdown(SHUT_RDWR)] then [close()], their errors swallowed. *)
Definition sock_close (s : socket) : socket :=
  mkSocket (sock_in s) (sock_out s) true (sock_send_fails s).

(** A call of a method of [self._socket]; [AttributeError] on [None]. *)
Definition with_socket {A} (op : socket -> outcome A * socket) : M A :=
  fun c =>
    match _socket c with
    | None => (Raise AttributeError, c)
    | Some s => let (r, s') := op s in (r, set_socket (Some s') c)
    end.

(** The loop of [_recv_exactly(n)].  Each round either returns or adds at
    least one byte to the buffer, so [n] rounds suffice; [fuel] counts
    them. *)
Fixpoint recv_exactly_loop (fuel n : nat) (buf : bytes) : M bytes :=
  if (length buf <? n)%nat then
    match fuel with
    | O => ret buf
    | S fuel' =>
        chunk <- with_socket (sock_recv (n - length buf));;
        match chunk with
        | [] => ret buf
        | _ :: _ => recv_exactly_loop fuel' n (buf ++ chunk)
        end
    end
  else ret buf.

Definition _recv_exactly (n : nat) : M bytes := recv_exactly_loop n n [].

(** ** The methods of the client *)

Section Client.
Context {MP : Msgpack} {LZ : Lz4Block}.

(** [connect]: the environment gives the TLS socket, or the exception of
    [create_connection] / [wrap_socket]. *)
Definition connect (env : outcome socket) : M unit :=
  s <- lift env;;
  modify (set_socket (Some s));;;
  modify (set_is_connected true);;;
  modify (set_recv_task (Some (mkTask false None)));;;
  modify (set_ping_task (Some (mkTask false None))).

(** [create_future()]: a new pending future, named by its index. *)
Definition create_future : M nat :=
  c <- get;;
  modify (set_futures (futures c ++ [Pending]));;;
  ret (length (futures c)).

(** [send_msg] up to its last line: everything before [return await fut].
    It gives the future the caller then awaits. *)
Definition send_msg_issue (opcode : Z) (payload : value) : M nat :=
  c <- get;;
  if negb (is_connected c) then raise (RuntimeError "Socket not connected")
  else
    modify (set_seq (_seq c + 1));;;
    let seq := _seq c + 1 in
    packet <- lift (_pack_packet 10 0 seq opcode payload);;
    fut <- create_future;;
    modify (fun c => set_pending (<[seq := fut]> (_pending c)) c);;;
    with_socket (sock_sendall packet);;;
    ret fut.

(** [await fut], seen from a later state of the client. *)
Inductive awaited : Type :=
| Suspended
| Returns (v : value)
| RaisesCancelled.

Definition await_future (fut : nat) (c : MiniSocketClient) : awaited :=
  match futures c !! fut with
  | Some (Result v) => Returns v
  | Some Cancelled => RaisesCancelled
  | _ => Suspended
  end.

(** [fut.set_result(payload)] under the guard [not fut.done()]. *)
Definition resolve (fut : nat) (payload : value) (c : MiniSocketClient)
  : MiniSocketClient :=
  match futures c !! fut with
  | Some f =>
      if done f then c
      else set_futures (<[fut := Result payload]> (futures c)) c
  | None => c
  end.

(** One pass through the [try] block of [_recv_loop]; [true] is [break]. *)
Definition recv_body : M bool :=
  header <- _recv_exactly 10;;
  match header with
  | [] => modify (set_is_connected false);;; ret true
  | _ :: _ =>
      let payload_len := Z.land (from_bytes (slice 6 10 header)) 0xFFFFFF in
      payload_bytes <- _recv_exactly (Z.to_nat payload_len);;
      payload <- lift (_unpack_packet (header ++ payload_bytes));;
      let seq := from_bytes (slice 3 4 header) in
      c <- get;;
      match _pending c !! seq with
      | None => ret false
      | Some fut =>
          modify (fun c => set_pending (delete seq (_pending c)) c);;;
          modify (resolve fut payload);;;
          ret false
      end
  end.

(** The [except Exception] handler of the loop. *)
Definition recv_handler (e : exn) (c : MiniSocketClient) : MiniSocketClient :=
  set_stdout (stdout c ++ [Printed "Recv loop error:" e; Sleep 1]) c.

(** One iteration of [while self.is_connected]: the [try] block and its
    handler.  [true] when the loop was left by [break]. *)
Definition recv_iteration (c : MiniSocketClient) : bool * MiniSocketClient :=
  match recv_body c with
  | (Ok b, c') => (b, c')
  | (Raise e, c') => (false, recv_handler e c')
  end.

Inductive loop_status : Type :=
| Stopped
| Running.

(** [_recv_loop], for at most [fuel] iterations. *)
Fixpoint _recv_loop (fuel : nat) (c : MiniSocketClient)
  : loop_status * MiniSocketClient :=
  if is_connected c then
    match fuel with
    | O => (Running, c)
    | S fuel' =>
        match recv_iteration c with
        | (true, c') => (Stopped, c')
        | (false, c') => _recv_loop fuel' c'
        end
    end
  else (Stopped, c).

(** [task.cancel()]: the request is recorded and, as [asyncio] does, the
    future the task is suspended on is cancelled if it is not done. *)
Definition cancel_task (t : task) (fs : list future) : task * list future :=
  (mkTask true (task_waiter t),
   match task_waiter t with
   | Some f =>
       match fs !! f with
       | Some Pending => <[f := Cancelled]> fs
       | _ => fs
       end
   | None => fs
   end).

(** [close]: no exception leaves it. *)
Definition close (c : MiniSocketClient) : MiniSocketClient :=
  let c := set_is_connected false c in
  let c := match _socket c with
           | Some s => set_socket (Some (sock_close s)) c
           | None => c
           end in
  let c := match _recv_task c with
           | Some t =>
               let (t', fs) := cancel_task t (futures c) in
               set_futures fs (set_recv_task (Some t') c)
           | None => c
           end in
  match _ping_task c with
  | Some t =>
      let (t', fs) := cancel_task t (futures c) in
      set_futures fs (set_ping_task (Some t') c)
  | None => c
  end.

(** [_ping_loop], one iteration in two steps.  First the keepalive is sent:
    the task is then suspended on the future of its [send_msg], or, when
    [send_msg] raised, the failure is printed and the task sleeps. *)
Definition ping_issue (c : MiniSocketClient) : MiniSocketClient :=
  match _ping_task c with
  | Some (mkTask false None) =>
      if is_connected c then
        match send_msg_issue 1 (VDict []) c with
        | (Ok fut, c') => set_ping_task (Some (mkTask false (Some fut))) c'
        | (Raise e, c') =>
            set_stdout
              (stdout c' ++ [Printed "Ping failed:" e; Sleep (ping_interval c')]) c'
        end
      else c
  | _ => c
  end.

(** Then, once that future has a result, the task goes on to its sleep. *)
Definition ping_resume (c : MiniSocketClient) : MiniSocketClient :=
  match _ping_task c with
  | Some (mkTask false (Some fut)) =>
      match futures c !! fut with
      | Some (Result _) =>
          set_stdout (stdout c ++ [Sleep (ping_interval c)])
                     (set_ping_task (Some (mkTask false None)) c)
      | _ => c
      end
  | _ => c
  end.

(** A request that [send_msg] can encode: the opcode fits two bytes and the
    payload serializes. *)
Definition encodable (r : Z * value) : bool :=
  (0 <=? fst r) && (fst r <? 65536)
  && match packb (snd r) with Ok _ => true | Raise _ => false end.

(** Several [send_msg] calls in a row, each up to its [await fut]. *)
Fixpoint send_all (reqs : list (Z * value)) : M (list nat) :=
  match reqs with
  | [] => ret []
  | (opcode, payload) :: reqs' =>
      fut <- send_msg_issue opcode payload;;
      futs <- send_all reqs';;
      ret (fut :: futs)
  end.

(** The states the client object goes through when it is only used
    through its methods and its two loops. *)
Inductive reachable : MiniSocketClient -> Prop :=
| reach_init ping : reachable (__init__ ping)
| reach_connect env c : reachable c -> reachable (snd (connect env c))
| reach_send opcode payload c :
    reachable c -> reachable (snd (send_msg_issue opcode payload c))
| reach_recv c : reachable c -> reachable (snd (recv_iteration c))
| reach_ping_issue c : reachable c -> reachable (ping_issue c)
| reach_ping_resume c : reachable c -> reachable (ping_resume c)
| reach_close c : reachable c -> reachable (close c).

End Client.

(** ** Payloads and frames used in the examples *)

(** [{"a": "bcdef"}] and [{"ok": "true"}]: nine bytes when serialized, a
    one-entry map byte [0x81] followed by eight more. *)
Definition payload_a : value := VDict [(VStr "a", VStr "bcdef")].
Definition payload_ok : value := VDict [(VStr "ok", VStr "true")].

(** [{"type": "START_AUTH", "phone": "+79230556736"}], as sent by [main]. *)
Definition sa_json : value :=
  VDict [(VStr "type", VStr "START_AUTH"); (VStr "phone", VStr "+79230556736")].

(** Its serialization (36 bytes), the LZ4 block that holds those bytes as
    one run of literals, and a frame that differs from [frame_of 10 0 1 17
    sa_json_bytes] in the first six bytes, in the top byte of the length
    field and by two trailing bytes. *)
Definition sa_json_bytes : bytes :=
  Eval vm_compute in
    match MsgpackModel.model_packb sa_json with Ok s => s | Raise _ => [] end.
Definition sa_json_block : bytes := xf0 :: x15 :: sa_json_bytes.
Definition sa_json_frame' : bytes :=
  [x01; x02; x03; x04; x05; x06; x80; x00; x00; x24] ++ sa_json_bytes
  ++ [xde; xad].

(** A frame whose payload section is the LZ4 block holding the nine bytes
    of [payload_ok] as one run of literals (token [0x90]). *)
Definition frame_ok_compressed : bytes :=
  [x0a; x00; x00; x01; x00; x06; x00; x00; x00; x0a;
   x90; x81; xa2; x6f; x6b; xa4; x74; x72; x75; x65].

(** [{"d": b}] for a [bytes] object [b] of 2^24 - 8 zero bytes: 2^24 bytes
    when serialized (the map byte, the key in two bytes, a five-byte bin32
    header and the data). *)
Definition big_bytes : bytes := repeat x00 (Z.to_nat 16777208).
Definition big_payload : value := VDict [(VStr "d", VBytes big_bytes)].


(** ** Client states used in the examples *)

(** A fresh TLS socket over which the peer delivers [evs]. *)
Definition fresh_socket (evs : list recv_event) : socket :=
  mkSocket evs [] false false.

(** The client after [connect()] on such a socket. *)
Definition connected (evs : list recv_event) : MiniSocketClient :=
  snd (connect (Ok (fresh_socket evs)) init_client).

(** The client after [connect()] and one [send_msg(6, {})] that is still
    waiting for its response. *)
Definition one_request_sent (evs : list recv_event) : MiniSocketClient :=
  snd (send_msg_issue 6 (VDict []) (connected evs)).

(** The client after [connect()], a keepalive of the ping loop that is
    waiting for its response (sequence number 1, future 0), and a
    [send_msg(6, {})] of the caller that is waiting too (sequence number 2,
    future 1). *)
Definition ping_and_request_sent : MiniSocketClient :=
  snd (send_msg_issue 6 (VDict []) (ping_issue (connected []))).

(** The response [{"payload": {"ok": True}}] and the frame
    (ver=10, cmd=0, seq=1, opcode=6) a peer sends it in. *)
Definition response_payload : value :=
  VDict [(VStr "payload", VDict [(VStr "ok", VBool true)])].
Definition response_frame : bytes :=
  frame_of 10 0 1 6
    (match packb response_payload with Ok s => s | Raise _ => [] end).

(** A frame whose one payload byte, [0xc1], is not a msgpack object. *)
Definition malformed_frame : bytes :=
  [x0a; x00; x00; x01; x00; x06; x00; x00; x00; x01; xc1].

(** A connected client object, built by hand, whose table already holds a
    slot for the next sequence number (future 0, pending).  The methods of
    the client never produce such a state. *)
Definition colliding_client : MiniSocketClient :=
  mkClient (Some (fresh_socket [])) 0 {[ 1 := 0%nat ]} true 30
           (Some (mkTask false None)) (Some (mkTask false None)) [Pending] [].

(** Keepalive requests as the ping loop sends them. *)
Definition pings (n : nat) : list (Z * value) := repeat (1, VDict []) n.

(** Two client states that differ in the socket at most. *)
Definition same_but_socket (c c' : MiniSocketClient) : Prop :=
  _seq c' = _seq c /\ _pending c' = _pending c /\
  is_connected c' = is_connected c /\ ping_interval c' = ping_interval c /\
  _recv_task c' = _recv_task c /\ _ping_task c' = _ping_task c /\
  futures c' = futures c /\ stdout c' = stdout c.


(** A client whose socket accepts writes. *)
Definition can_send (c : MiniSocketClient) : bool :=
  match _socket c with
  | Some s => negb (sock_closed s) && negb (sock_send_fails s)
  | None => false
  end.

(** The future [f] is the one a background task is suspended on. *)
Definition task_waits_on (t : option task) (f : nat) : bool :=
  match t with
  | Some (mkTask _ (Some w)) => bool_decide (w = f)
  | _ => false
  end.

Definition awaited_by_task (c : MiniSocketClient) (f : nat) : bool :=
  task_waits_on (_recv_task c) f || task_waits_on (_ping_task c) f.

(** ** The incoming byte stream *)

(** The bytes the peer delivers before its stream ends or fails, whatever
    the chunks they arrive in, and the events from that point on. *)
Fixpoint stream_bytes (evs : list recv_event) : bytes :=
  match evs with
  | Chunk (b :: bs) :: rest => (b :: bs) ++ stream_bytes rest
  | _ => []
  end.

Fixpoint stream_tail (evs : list recv_event) : list recv_event :=
  match evs with
  | Chunk (_ :: _) :: rest => stream_tail rest
  | _ => evs
  end.

(** After those bytes the peer has shut down, or the next read fails. *)
Definition at_eof (evs : list recv_event) : bool :=
  match stream_tail evs with
  | [] | Chunk [] :: _ => true
  | _ => false
  end.

Definition at_error (evs : list recv_event) : bool :=
  match stream_tail evs with
  | ReadError :: _ => true
  | _ => false
  end.

(** ** Streams used in the examples *)

(** The serialized response, and its frame followed by two more bytes,
    delivered in three chunks that cut the header and the payload. *)
Definition response_bytes : bytes :=
  match packb response_payload with Ok s => s | Raise _ => [] end.

Definition chunked_response : list recv_event :=
  [Chunk (firstn 3 response_frame);
   Chunk (firstn 9 (skipn 3 response_frame));
   Chunk (skipn 12 response_frame ++ [x0a; x00])].

(** The socket of [one_request_sent evs]: the request frame has been
    written to it. *)
Definition sent_socket (evs : list recv_event) : socket :=
  mkSocket evs [x0a; x00; x00; x01; x00; x06; x00; x00; x00; x01; x80]
           false false.

(** The client after 255 keepalives on one connection. *)
Definition worn_out : MiniSocketClient :=
  snd (send_all (pings 255) (connected [])).

(** ** Invariants of the client *)

(** The socket object is the same one, with nothing written to it and not
    closed or broken in between. *)
Definition sock_kept (c c' : MiniSocketClient) : Prop :=
  match _socket c, _socket c' with
  | None, None => True
  | Some s, Some s' =>
      sock_out s' = sock_out s /\ sock_closed s' = sock_closed s /\
      sock_send_fails s' = sock_send_fails s
  | _, _ => False
  end.

(** Every slot of the table has a sequence number between 1 and the
    counter, and names a future that exists. *)
Definition table_wf (c : MiniSocketClient) : Prop :=
  0 <= _seq c /\
  forall k f, _pending c !! k = Some f ->
              1 <= k <= _seq c /\ (f < length (futures c))%nat.


(** * Properties *)

(** ** Bytes and big-endian integers *)

Lemma Z_of_byte_range (b : byte) : 0 <= Z_of_byte b < 256.
Proof.
  unfold Z_of_byte. pose proof (Byte.to_N_bounded b). lia.
Qed.

Lemma Z_of_byte_of_Z (z : Z) : Z_of_byte (byte_of_Z z) = z mod 256.
Proof.
  unfold Z_of_byte, byte_of_Z.
  pose proof (Z.mod_pos_bound z 256 ltac:(lia)) as Hm.
  destruct (Byte.of_N (Z.to_N (z mod 256))) as [b|] eqn:E.
  - apply Byte.to_of_N in E. rewrite E. lia.
  - apply Byte.of_N_None_iff in E. lia.
Qed.

Lemma be_digits_length (n : nat) (v : Z) : length (be_digits n v) = n.
Proof. induction n; simpl; auto. Qed.

Lemma from_bytes_acc (bs : bytes) (acc : Z) :
  fold_left (fun a b => a * 256 + Z_of_byte b) bs acc
  = acc * 256 ^ Z.of_nat (length bs) + from_bytes bs.
Proof.
  unfold from_bytes. revert acc.
  induction bs as [|b bs IH]; intros acc.
  - simpl. lia.
  - cbn [fold_left length]. rewrite IH, (IH (0 * 256 + Z_of_byte b)).
    rewrite Nat2Z.inj_succ, Z.pow_succ_r by lia. ring.
Qed.

Lemma from_bytes_cons (b : byte) (bs : bytes) :
  from_bytes (b :: bs) = Z_of_byte b * 256 ^ Z.of_nat (length bs) + from_bytes bs.
Proof.
  unfold from_bytes at 1. cbn [fold_left]. rewrite from_bytes_acc. ring.
Qed.

Lemma from_bytes_be_digits (n : nat) (v : Z) :
  from_bytes (be_digits n v) = v mod 256 ^ Z.of_nat n.
Proof.
  induction n as [|k IH].
  - simpl. rewrite Z.mod_1_r. reflexivity.
  - cbn [be_digits]. rewrite from_bytes_cons, be_digits_length, IH.
    rewrite Z_of_byte_of_Z, Nat2Z.inj_succ, Z.pow_succ_r by lia.
    assert (Hp : 0 < 256 ^ Z.of_nat k) by (apply Z.pow_pos_nonneg; lia).
    rewrite (Z.mul_comm 256), Z.rem_mul_r by lia. ring.
Qed.

Lemma to_bytes_ok (n : nat) (v : Z) :
  0 <= v < 256 ^ Z.of_nat n -> to_bytes n v = Ok (be_digits n v).
Proof.
  intros [H0 H1]. unfold to_bytes.
  apply Z.leb_le in H0. apply Z.ltb_lt in H1. rewrite H0, H1. reflexivity.
Qed.

Lemma to_bytes_overflow (n : nat) (v : Z) :
  256 ^ Z.of_nat n <= v -> to_bytes n v = Raise OverflowError.
Proof.
  intros H. unfold to_bytes.
  apply Z.ltb_ge in H. rewrite H, andb_false_r. reflexivity.
Qed.

Lemma from_to_bytes (n : nat) (v : Z) (bs : bytes) :
  to_bytes n v = Ok bs -> from_bytes bs = v /\ length bs = n.
Proof.
  unfold to_bytes. destruct (0 <=? v) eqn:H0; [|discriminate].
  destruct (v <? 256 ^ Z.of_nat n) eqn:H1; [|discriminate].
  cbn [andb]. intros [= <-].
  apply Z.leb_le in H0. apply Z.ltb_lt in H1.
  rewrite from_bytes_be_digits, be_digits_length, Z.mod_small by lia. auto.
Qed.

Lemma mask24 (x : Z) : Z.land x 0xFFFFFF = x mod 2 ^ 24.
Proof. change 0xFFFFFF with (Z.ones 24). apply Z.land_ones. lia. Qed.

Lemma mask24_range (x : Z) : 0 <= Z.land x 0xFFFFFF < 2 ^ 24.
Proof. rewrite mask24. apply Z.mod_pos_bound. lia. Qed.

Lemma mask24_idem (x : Z) : Z.land (Z.land x 0xFFFFFF) 0xFFFFFF = Z.land x 0xFFFFFF.
Proof. rewrite <- Z.land_assoc, Z.land_diag. reflexivity. Qed.

(** ** The codec *)

Section CodecFacts.
Context {MP : Msgpack} {LZ : Lz4Block}.

Lemma pack_packet_ok ver cmd seq opcode P s :
  fields_fit ver cmd seq opcode ->
  packb P = Ok s ->
  _pack_packet ver cmd seq opcode P = Ok (frame_of ver cmd seq opcode s).
Proof.
  intros (Hv & Hc & Hs & Ho) Hp. unfold _pack_packet.
  rewrite (to_bytes_ok 1 ver), (to_bytes_ok 2 cmd), (to_bytes_ok 1 seq),
    (to_bytes_ok 2 opcode) by (simpl; lia).
  cbn [obind]. rewrite Hp. cbn [obind].
  rewrite to_bytes_ok; [reflexivity|].
  pose proof (mask24_range (Z.of_nat (length s))).
  change (256 ^ Z.of_nat 4) with (2 ^ 32). lia.
Qed.

Lemma frame_of_skipn ver cmd seq opcode s :
  skipn 10 (frame_of ver cmd seq opcode s) = s.
Proof. reflexivity. Qed.

Lemma frame_of_length_field ver cmd seq opcode s :
  slice 6 10 (frame_of ver cmd seq opcode s)
  = be_digits 4 (Z.land (Z.of_nat (length s)) 0xFFFFFF).
Proof.
  unfold slice, frame_of.
  change (skipn 6 _) with (be_digits 4 (Z.land (Z.of_nat (length s)) 0xFFFFFF) ++ s).
  change (10 - 6)%nat with 4%nat.
  rewrite <- (be_digits_length 4 (Z.land (Z.of_nat (length s)) 0xFFFFFF)) at 1.
  rewrite firstn_app, Nat.sub_diag, firstn_all. cbn [firstn]. apply app_nil_r.
Qed.

Lemma frame_of_payload_len ver cmd seq opcode s :
  frame_payload_len (frame_of ver cmd seq opcode s)
  = Z.of_nat (length s) mod 2 ^ 24.
Proof.
  unfold frame_payload_len. rewrite frame_of_length_field, from_bytes_be_digits.
  pose proof (mask24_range (Z.of_nat (length s))).
  rewrite Z.mod_small by (change (256 ^ Z.of_nat 4) with (2 ^ 32); lia).
  rewrite mask24_idem. apply mask24.
Qed.

Lemma frame_of_payload_bytes ver cmd seq opcode s :
  Z.of_nat (length s) < 2 ^ 24 ->
  frame_payload_bytes (frame_of ver cmd seq opcode s) = s.
Proof.
  intros H. unfold frame_payload_bytes.
  rewrite frame_of_payload_len, frame_of_skipn, Z.mod_small by lia.
  rewrite Nat2Z.id. apply firstn_all.
Qed.

Lemma unpack_packet_payload (data : bytes) :
  frame_payload_bytes data <> [] ->
  _unpack_packet data
  = (b <-! decompress_or_raw (frame_payload_bytes data); unpackb b).
Proof.
  unfold _unpack_packet. destruct (frame_payload_bytes data); congruence.
Qed.

(** A byte string read as six header bytes, four length bytes, the payload
    they declare and anything after it. *)
Lemma frame_payload_bytes_parts (h len4 payload trailer : bytes) :
  length h = 6%nat -> length len4 = 4%nat ->
  Z.of_nat (length payload) = Z.land (from_bytes len4) 0xFFFFFF ->
  frame_payload_bytes (h ++ len4 ++ payload ++ trailer) = payload.
Proof.
  intros Hh Hl Hp. unfold frame_payload_bytes, frame_payload_len, slice.
  rewrite (drop_app_length' h) by (symmetry; exact Hh).
  change (10 - 6)%nat with 4%nat.
  rewrite (take_app_length' len4) by (symmetry; exact Hl).
  rewrite (app_assoc h len4), (drop_app_length' (h ++ len4))
    by (rewrite length_app; lia).
  rewrite <- Hp, Nat2Z.id. apply take_app_length.
Qed.

(** So neither the first six bytes nor the trailing bytes matter. *)
Lemma unpack_packet_ignores_header_and_trailer (h1 h2 len4 payload t1 t2 : bytes) :
  length h1 = 6%nat -> length h2 = 6%nat -> length len4 = 4%nat ->
  Z.of_nat (length payload) = Z.land (from_bytes len4) 0xFFFFFF ->
  _unpack_packet (h1 ++ len4 ++ payload ++ t1)
  = _unpack_packet (h2 ++ len4 ++ payload ++ t2).
Proof.
  intros H1 H2 Hl Hp. unfold _unpack_packet.
  rewrite !frame_payload_bytes_parts by assumption. reflexivity.
Qed.

End CodecFacts.

Section CodecClaims.
Context {MP : Msgpack} {LZ : Lz4Block}.

(** C3 (amended). Round trip of the codec: when the header fields fit their
    widths, the payload [P] serializes to between 1 and 2^24 - 1 bytes that
    msgpack reads back as [P], and those bytes are not themselves accepted
    by the LZ4 block decompressor, [_pack_packet] gives a frame and
    [_unpack_packet] of that frame gives [P] again. *)
Theorem pack_unpack_roundtrip ver cmd seq opcode (P : value) (s : bytes) :
  fields_fit ver cmd seq opcode ->
  packb P = Ok s ->
  unpackb s = Ok P ->
  0 < Z.of_nat (length s) < 2 ^ 24 ->
  lz4_decompress s 99999 = Raise LZ4BlockError ->
  exists frame,
    _pack_packet ver cmd seq opcode P = Ok frame /\
    _unpack_packet frame = Ok P.
Proof.
  intros Hf Hp Hu Hlen Hlz.
  exists (frame_of ver cmd seq opcode s). split.
  - apply pack_packet_ok; assumption.
  - rewrite unpack_packet_payload; rewrite frame_of_payload_bytes by lia.
    + unfold decompress_or_raw. rewrite Hlz. cbn [obind]. exact Hu.
    + destruct s; [simpl in Hlen; lia | discriminate].
Qed.

(** C6 (amended). [_pack_packet] never rejects a payload for its size: when
    the header fields fit and the payload serializes to [s], the frame is a
    ten-byte header followed by all of [s]; the length field holds
    [len(s) mod 2^24] with its top byte zero, and it equals the length of
    the payload section exactly when [s] is shorter than 2^24 bytes. *)
Theorem pack_packet_length_field ver cmd seq opcode (P : value) (s : bytes) :
  fields_fit ver cmd seq opcode ->
  packb P = Ok s ->
  exists frame,
    _pack_packet ver cmd seq opcode P = Ok frame /\
    length frame = (10 + length s)%nat /\
    skipn 10 frame = s /\
    nth 6 frame x01 = x00 /\
    frame_payload_len frame = Z.of_nat (length s) mod 2 ^ 24 /\
    (frame_payload_len frame = Z.of_nat (length (skipn 10 frame))
     <-> Z.of_nat (length s) < 2 ^ 24).
Proof.
  intros Hf Hp. exists (frame_of ver cmd seq opcode s).
  split; [apply pack_packet_ok; assumption|].
  split; [reflexivity|]. split; [apply frame_of_skipn|].
  split.
  - unfold frame_of. cbn [be_digits app nth].
    pose proof (mask24_range (Z.of_nat (length s))) as Hr.
    unfold byte_of_Z.
    replace (Z.land (Z.of_nat (length s)) 0xFFFFFF / 256 ^ Z.of_nat 3 mod 256)
      with 0; [reflexivity|].
    change (256 ^ Z.of_nat 3) with (2 ^ 24).
    rewrite Z.div_small by lia. reflexivity.
  - split; [apply frame_of_payload_len|].
    rewrite frame_of_payload_len, frame_of_skipn.
    pose proof (Z.mod_pos_bound (Z.of_nat (length s)) (2 ^ 24) ltac:(lia)).
    split; intros H1; [lia|]. apply Z.mod_small. lia.
Qed.

(** C7 (amended). When the bytes [c] of a frame's payload section are an
    LZ4 block that decompresses (within the size bound) to the serialization
    [s] of [P], and [s] is not itself accepted by the decompressor, the
    frame carrying [c] and the frame carrying [s] decode alike: both give
    what msgpack reads from [s]. *)
Theorem compressed_and_raw_decode_alike (P : value) (s c d_comp d_raw : bytes) :
  packb P = Ok s ->
  s <> [] -> c <> [] ->
  lz4_decompress c 99999 = Ok s ->
  lz4_decompress s 99999 = Raise LZ4BlockError ->
  frame_payload_bytes d_comp = c ->
  frame_payload_bytes d_raw = s ->
  _unpack_packet d_comp = unpackb s /\
  _unpack_packet d_raw = unpackb s.
Proof.
  intros _ Hs Hc Hdc Hds Hfc Hfs.
  rewrite !unpack_packet_payload by congruence.
  rewrite Hfc, Hfs. unfold decompress_or_raw. rewrite Hdc, Hds. split; reflexivity.
Qed.

(** C10. [_unpack_packet] depends only on the 24-bit length field and on
    the payload bytes it declares: two byte strings whose bytes [6:10],
    masked to 24 bits, agree and whose first so-many bytes from offset 10
    agree decode to the same outcome, whatever the bytes [0:6] and the bytes
    after the declared payload are. *)
Theorem unpack_packet_depends_on_payload_only (d1 d2 : bytes) :
  Z.land (from_bytes (slice 6 10 d1)) 0xFFFFFF
  = Z.land (from_bytes (slice 6 10 d2)) 0xFFFFFF ->
  firstn (Z.to_nat (Z.land (from_bytes (slice 6 10 d1)) 0xFFFFFF)) (skipn 10 d1)
  = firstn (Z.to_nat (Z.land (from_bytes (slice 6 10 d1)) 0xFFFFFF)) (skipn 10 d2) ->
  _unpack_packet d1 = _unpack_packet d2.
Proof.
  intros Hlen Hpay. unfold _unpack_packet, frame_payload_bytes, frame_payload_len.
  rewrite <- Hlen, <- Hpay. reflexivity.
Qed.

End CodecClaims.

(** ** The codec on the format models *)

Lemma pack_unpack_roundtrip_witness :
  exists frame,
    _pack_packet 10 0 1 17 sa_json = Ok frame /\ _unpack_packet frame = Ok sa_json.
Proof.
  apply (pack_unpack_roundtrip 10 0 1 17 sa_json sa_json_bytes).
  - unfold fields_fit. lia.
  - vm_compute. reflexivity.
  - vm_compute. reflexivity.
  - vm_compute. split; reflexivity.
  - vm_compute. reflexivity.
Defined.

(** C3 (as stated) fails: the nine bytes that serialize [{"a": "bcdef"}]
    are a valid LZ4 block (token [0x81]: eight literals, end of input), so
    the decompression attempt succeeds and msgpack is given the last eight
    bytes only: decoding the encoded frame raises [ExtraData]. *)
Lemma roundtrip_fails_on_lz4_shaped_payload :
  exists frame,
    _pack_packet 10 0 1 6 payload_a = Ok frame /\
    _unpack_packet frame = Raise ExtraData /\
    _unpack_packet frame <> Ok payload_a.
Proof.
  exists (frame_of 10 0 1 6
            [x81; xa1; x61; xa5; x62; x63; x64; x65; x66]).
  split; [vm_compute; reflexivity|].
  split; [vm_compute; reflexivity|].
  vm_compute. discriminate.
Qed.

Lemma pack_packet_length_field_witness :
  exists frame,
    _pack_packet 10 0 1 17 sa_json = Ok frame /\
    length frame = (10 + length sa_json_bytes)%nat /\
    skipn 10 frame = sa_json_bytes /\
    nth 6 frame x01 = x00 /\
    frame_payload_len frame = Z.of_nat (length sa_json_bytes) mod 2 ^ 24 /\
    (frame_payload_len frame = Z.of_nat (length (skipn 10 frame))
     <-> Z.of_nat (length sa_json_bytes) < 2 ^ 24).
Proof.
  apply (pack_packet_length_field 10 0 1 17 sa_json sa_json_bytes).
  - unfold fields_fit. lia.
  - vm_compute. reflexivity.
Defined.

Lemma model_packb_dict_bytes (bs h : bytes) :
  MsgpackModel.bin_header (Z.of_nat (length bs)) = Ok h ->
  packb (VDict [(VStr "d", VBytes bs)]) = Ok ([x81; xa1; x64] ++ h ++ bs).
Proof.
  intros H.
  change (packb (VDict [(VStr "d", VBytes bs)]))
    with (bs1 <-! (kb <-! Ok [xa1; x64];
                   vb <-! (h <-! MsgpackModel.bin_header (Z.of_nat (length bs));
                           Ok (h ++ bs));
                   bs2 <-! Ok [];
                   Ok (kb ++ vb ++ bs2));
          Ok ([x81] ++ bs1)).
  rewrite H. cbn [obind]. rewrite app_nil_r. reflexivity.
Qed.

Lemma big_bytes_length : Z.of_nat (length big_bytes) = 16777208.
Proof. unfold big_bytes. rewrite repeat_length, Z2Nat.id; lia. Qed.

(** C6 (as stated) fails: a payload that serializes to exactly 2^24 bytes
    is not rejected; the frame is emitted with a length field of 0 in
    front of a payload section of 2^24 bytes. *)
Lemma oversize_payload_not_rejected :
  exists s frame,
    packb big_payload = Ok s /\
    Z.of_nat (length s) = 2 ^ 24 /\
    _pack_packet 10 0 1 6 big_payload = Ok frame /\
    frame_payload_len frame = 0 /\
    Z.of_nat (length (skipn 10 frame)) = 2 ^ 24.
Proof.
  set (s := [x81; xa1; x64] ++ [xc6; x00; xff; xff; xf8] ++ big_bytes).
  assert (Hs : packb big_payload = Ok s).
  { apply model_packb_dict_bytes. rewrite big_bytes_length. reflexivity. }
  assert (Hlen : Z.of_nat (length s) = 2 ^ 24).
  { unfold s. rewrite !length_app, !Nat2Z.inj_add, big_bytes_length. reflexivity. }
  exists s, (frame_of 10 0 1 6 s).
  split; [exact Hs|]. split; [exact Hlen|].
  split; [apply pack_packet_ok; [unfold fields_fit; lia | exact Hs]|].
  rewrite frame_of_payload_len, frame_of_skipn, Hlen. split; reflexivity.
Qed.

Lemma compressed_and_raw_decode_alike_witness :
  _unpack_packet (frame_of 10 0 1 17 sa_json_block) = unpackb sa_json_bytes /\
  _unpack_packet (frame_of 10 0 1 17 sa_json_bytes) = unpackb sa_json_bytes.
Proof.
  apply (compressed_and_raw_decode_alike sa_json sa_json_bytes sa_json_block).
  - vm_compute. reflexivity.
  - discriminate.
  - discriminate.
  - vm_compute. reflexivity.
  - vm_compute. reflexivity.
  - vm_compute. reflexivity.
  - vm_compute. reflexivity.
Defined.

(** C7 (as stated) fails: the nine bytes that serialize [{"ok": "true"}]
    are themselves a valid LZ4 block.  The frame carrying their compressed
    form decodes to the payload; the frame carrying them uncompressed is
    decompressed as well and raises [ExtraData]. *)
Lemma compressed_and_raw_decode_differ :
  exists s d_raw,
    packb payload_ok = Ok s /\
    _pack_packet 10 0 1 6 payload_ok = Ok d_raw /\
    frame_payload_bytes d_raw = s /\
    lz4_decompress (frame_payload_bytes frame_ok_compressed) 99999 = Ok s /\
    _unpack_packet frame_ok_compressed = Ok payload_ok /\
    _unpack_packet d_raw = Raise ExtraData.
Proof.
  exists [x81; xa2; x6f; x6b; xa4; x74; x72; x75; x65].
  exists (frame_of 10 0 1 6 [x81; xa2; x6f; x6b; xa4; x74; x72; x75; x65]).
  repeat split; vm_compute; reflexivity.
Qed.

Lemma unpack_packet_depends_on_payload_only_witness :
  _unpack_packet (frame_of 10 0 1 17 sa_json_bytes) = _unpack_packet sa_json_frame'.
Proof.
  apply unpack_packet_depends_on_payload_only.
  - vm_compute. reflexivity.
  - vm_compute. reflexivity.
Defined.

(** ** The client *)

Lemma same_but_socket_refl c : same_but_socket c c.
Proof. repeat split. Qed.

Lemma same_but_socket_trans c1 c2 c3 :
  same_but_socket c1 c2 -> same_but_socket c2 c3 -> same_but_socket c1 c3.
Proof.
  unfold same_but_socket. intros (?&?&?&?&?&?&?&?) (?&?&?&?&?&?&?&?).
  repeat split; congruence.
Qed.

Lemma with_socket_same {A} (op : socket -> outcome A * socket) c r c' :
  with_socket op c = (r, c') -> same_but_socket c c'.
Proof.
  unfold with_socket. destruct (_socket c) as [s|].
  - destruct (op s) as [r' s']. intros [= _ <-]. repeat split.
  - intros [= _ <-]. apply same_but_socket_refl.
Qed.

Lemma recv_exactly_loop_same fuel n buf c r c' :
  recv_exactly_loop fuel n buf c = (r, c') -> same_but_socket c c'.
Proof.
  revert buf c. induction fuel as [|fuel IH]; intros buf c;
    cbn [recv_exactly_loop]; destruct (length buf <? n)%nat;
    try (unfold ret; intros [= _ <-]; apply same_but_socket_refl).
  unfold bind.
  destruct (with_socket (sock_recv (n - length buf)) c) as [[chunk|e] c1] eqn:E;
    apply with_socket_same in E.
  - destruct chunk as [|b chunk].
    + unfold ret. intros [= _ <-]. exact E.
    + intros H. apply IH in H. eapply same_but_socket_trans; eassumption.
  - intros [= _ <-]. exact E.
Qed.

Lemma recv_exactly_same n c r c' :
  _recv_exactly n c = (r, c') -> same_but_socket c c'.
Proof. apply recv_exactly_loop_same. Qed.

(** The fuel of [_recv_exactly] is enough: with at least [n - len(buf)]
    rounds allowed the loop never stops for lack of them. *)
Lemma recv_exactly_loop_fuel fuel1 fuel2 n buf c :
  (n - length buf <= fuel1)%nat -> (n - length buf <= fuel2)%nat ->
  recv_exactly_loop fuel1 n buf c = recv_exactly_loop fuel2 n buf c.
Proof.
  revert fuel2 buf c.
  induction fuel1 as [|f1 IH]; intros fuel2 buf c H1 H2.
  - destruct fuel2; cbn [recv_exactly_loop];
      destruct (length buf <? n)%nat eqn:E; try reflexivity;
      apply Nat.ltb_lt in E; lia.
  - destruct fuel2 as [|f2]; cbn [recv_exactly_loop];
      destruct (length buf <? n)%nat eqn:E; try reflexivity.
    + apply Nat.ltb_lt in E. lia.
    + apply Nat.ltb_lt in E. unfold bind.
      destruct (with_socket (sock_recv (n - length buf)) c) as [[chunk|e] c'];
        [|reflexivity].
      destruct chunk as [|b chunk]; [reflexivity|].
      apply IH; rewrite length_app; cbn [length]; lia.
Qed.

Section ClientFacts.
Context {MP : Msgpack} {LZ : Lz4Block}.

(** An exception in the [try] block of the receive loop leaves everything
    but the socket as it was. *)
Lemma recv_body_raise c e c1 :
  recv_body c = (Raise e, c1) -> same_but_socket c c1.
Proof.
  unfold recv_body, bind.
  destruct (_recv_exactly 10 c) as [[header|e1] ca] eqn:E1.
  - apply recv_exactly_same in E1.
    destruct header as [|h0 header]; [discriminate|].
    destruct (_recv_exactly _ ca) as [[pb|e2] cb] eqn:E2.
    + apply recv_exactly_same in E2.
      unfold lift. destruct (_unpack_packet _) as [payload|e3].
      * unfold get. destruct (_pending cb !! _); discriminate.
      * intros [= _ <-]. eapply same_but_socket_trans; eassumption.
    + apply recv_exactly_same in E2.
      intros [= _ <-]. eapply same_but_socket_trans; eassumption.
  - apply recv_exactly_same in E1. intros [= _ <-]. exact E1.
Qed.

(** [send_msg] on a client that is not connected. *)
Lemma send_msg_issue_not_connected opcode payload c :
  is_connected c = false ->
  send_msg_issue opcode payload c
  = (Raise (RuntimeError "Socket not connected"), c).
Proof.
  intros H. unfold send_msg_issue, bind, get. rewrite H. reflexivity.
Qed.

(** [send_msg] on a connected client, when the frame encodes and the socket
    takes it. *)
Lemma send_msg_issue_ok opcode payload c s packet :
  is_connected c = true ->
  _pack_packet 10 0 (_seq c + 1) opcode payload = Ok packet ->
  _socket c = Some s -> sock_closed s = false -> sock_send_fails s = false ->
  send_msg_issue opcode payload c
  = (Ok (length (futures c)),
     mkClient (Some (mkSocket (sock_in s) (sock_out s ++ packet) false false))
              (_seq c + 1)
              (<[_seq c + 1 := length (futures c)]> (_pending c))
              true (ping_interval c) (_recv_task c) (_ping_task c)
              (futures c ++ [Pending]) (stdout c)).
Proof.
  intros Hc Hp Hs Hcl Hsf. unfold send_msg_issue, bind, get.
  rewrite Hc. cbn [negb modify]. unfold lift. cbn [_seq set_seq]. rewrite Hp.
  unfold create_future, bind, get, modify, ret, with_socket.
  cbn [set_seq set_futures set_pending set_socket _socket futures _pending _seq
       is_connected _recv_task _ping_task stdout ping_interval].
  rewrite Hs. unfold sock_sendall. rewrite Hcl, Hsf. cbn [orb].
  unfold set_socket, set_pending, set_futures, set_seq.
  cbn [_socket futures _pending _seq is_connected _recv_task _ping_task stdout
       ping_interval].
  rewrite Hc. reflexivity.
Qed.

(** [send_msg] on a connected client whose frame does not encode: the
    counter has been incremented, nothing else has changed. *)
Lemma send_msg_issue_pack_raises opcode payload c e :
  is_connected c = true ->
  _pack_packet 10 0 (_seq c + 1) opcode payload = Raise e ->
  send_msg_issue opcode payload c = (Raise e, set_seq (_seq c + 1) c).
Proof.
  intros Hc Hp. unfold send_msg_issue, bind, get.
  rewrite Hc. cbn [negb modify]. unfold lift. cbn [_seq set_seq]. rewrite Hp.
  reflexivity.
Qed.

Lemma pack_packet_seq_overflow seq opcode payload :
  256 <= seq -> _pack_packet 10 0 seq opcode payload = Raise OverflowError.
Proof.
  intros H. unfold _pack_packet.
  rewrite (to_bytes_ok 1 10), (to_bytes_ok 2 0) by (simpl; lia). cbn [obind].
  rewrite to_bytes_overflow by (simpl; lia). reflexivity.
Qed.

Lemma encodable_packs r seq :
  encodable r = true -> 0 <= seq < 256 ->
  exists packet, _pack_packet 10 0 seq (fst r) (snd r) = Ok packet.
Proof.
  unfold encodable. intros H Hs.
  apply andb_prop in H as [H Hp]. apply andb_prop in H as [H0 H1].
  apply Z.leb_le in H0. apply Z.ltb_lt in H1.
  destruct (packb (snd r)) as [s|] eqn:E; [|discriminate].
  eexists. apply pack_packet_ok; [unfold fields_fit; lia | exact E].
Qed.

(** [send_msg] up to its [await], in all its cases. *)
Lemma send_msg_issue_unfold opcode payload c :
  send_msg_issue opcode payload c
  = if is_connected c then
      match _pack_packet 10 0 (_seq c + 1) opcode payload with
      | Raise e => (Raise e, set_seq (_seq c + 1) c)
      | Ok packet =>
          let c1 :=
            set_pending (<[_seq c + 1 := length (futures c)]> (_pending c))
              (set_futures (futures c ++ [Pending]) (set_seq (_seq c + 1) c)) in
          match _socket c with
          | None => (Raise AttributeError, c1)
          | Some s =>
              match sock_sendall packet s with
              | (Ok _, s') => (Ok (length (futures c)), set_socket (Some s') c1)
              | (Raise e, s') => (Raise e, set_socket (Some s') c1)
              end
          end
      end
    else (Raise (RuntimeError "Socket not connected"), c).
Proof.
  unfold send_msg_issue, bind, get.
  destruct (is_connected c); [|reflexivity].
  cbn [negb modify]. unfold lift. cbn [_seq set_seq].
  destruct (_pack_packet 10 0 (_seq c + 1) opcode payload) as [packet|e];
    [|reflexivity].
  unfold create_future, bind, get, modify, ret, with_socket.
  cbn [set_seq set_futures set_pending set_socket _socket futures _pending _seq
       is_connected _recv_task _ping_task stdout ping_interval].
  destruct (_socket c) as [s|]; [|reflexivity].
  destruct (sock_sendall packet s) as [[[]|e] s']; reflexivity.
Qed.

(** What any [send_msg] does to the counter and the table. *)
Lemma send_msg_issue_effect opcode payload c :
  let c' := snd (send_msg_issue opcode payload c) in
  (_seq c' = _seq c /\ _pending c' = _pending c) \/
  (_seq c' = _seq c + 1 /\
   (_pending c' = _pending c \/
    exists f, _pending c' = <[_seq c + 1 := f]> (_pending c))).
Proof.
  rewrite send_msg_issue_unfold.
  destruct (is_connected c); [|left; split; reflexivity].
  destruct (_pack_packet 10 0 (_seq c + 1) opcode payload) as [packet|e];
    [|right; split; [reflexivity | left; reflexivity]].
  cbv zeta. right.
  destruct (_socket c) as [s|].
  - destruct (sock_sendall packet s) as [[[]|e] s'];
      (split; [reflexivity | right; eexists; reflexivity]).
  - split; [reflexivity | right; eexists; reflexivity].
Qed.



Lemma close_fields c :
  _seq (close c) = _seq c /\ _pending (close c) = _pending c /\
  is_connected (close c) = false.
Proof.
  unfold close. destruct c as [so sq pd ic pi rt pt fs out]. cbn.
  destruct so, rt as [[? ?]|], pt as [[? ?]|]; cbn; auto.
Qed.



End ClientFacts.

Section ClientClaims.
Context {MP : Msgpack} {LZ : Lz4Block}.


(** [send_msg] once the counter has reached 255. *)
Lemma send_msg_issue_overflow opcode payload c :
  is_connected c = true -> 255 <= _seq c ->
  send_msg_issue opcode payload c = (Raise OverflowError, set_seq (_seq c + 1) c).
Proof.
  intros Hc Hs. apply send_msg_issue_pack_raises; [exact Hc|].
  apply pack_packet_seq_overflow. lia.
Qed.

Lemma send_all_ok (reqs : list (Z * value)) c :
  is_connected c = true -> can_send c = true ->
  forallb encodable reqs = true ->
  0 <= _seq c -> _seq c + Z.of_nat (length reqs) <= 255 ->
  exists futs c',
    send_all reqs c = (Ok futs, c') /\
    length futs = length reqs /\
    _seq c' = _seq c + Z.of_nat (length reqs) /\
    is_connected c' = true /\ can_send c' = true.
Proof.
  revert c. induction reqs as [|[opcode payload] reqs IH]; intros c Hc Hw Hen H0 H1.
  - exists [], c. cbn [send_all length]. unfold ret.
    repeat split; try assumption. cbn. lia.
  - cbn [forallb] in Hen. apply andb_prop in Hen as [He Hen].
    cbn [length] in H1.
    destruct (encodable_packs (opcode, payload) (_seq c + 1) He ltac:(lia))
      as [packet Hp].
    unfold can_send in Hw. destruct (_socket c) as [s|] eqn:Hs; [|discriminate].
    apply andb_prop in Hw as [Hcl Hsf].
    apply negb_true_iff in Hcl. apply negb_true_iff in Hsf.
    pose proof (send_msg_issue_ok opcode payload c s packet Hc Hp Hs Hcl Hsf) as Hsend.
    match type of Hsend with _ = (_, ?st) => set (c1 := st) in * end.
    destruct (IH c1) as (futs & c' & Hall & Hlen & Hseq & Hc' & Hw');
      try reflexivity; try assumption.
    + cbn. lia.
    + cbn. lia.
    + exists (length (futures c) :: futs), c'.
      cbn [send_all]. unfold bind at 1. rewrite Hsend.
      unfold bind at 1. rewrite Hall. unfold ret.
      repeat split; try assumption.
      * cbn [length]. congruence.
      * rewrite Hseq. cbn [_seq c1 length]. lia.
Qed.

(** C2 (what the code does). The counter is a Python integer that is only
    ever incremented: 255 requests from a fresh connection get the sequence
    numbers up to 255, and from then on every [send_msg] raises
    [OverflowError] when the counter is converted to one byte, leaving the
    counter one higher each time. *)
Theorem seq_counter_overflows (reqs : list (Z * value)) c :
  is_connected c = true -> can_send c = true -> _seq c = 0 ->
  length reqs = 255%nat -> forallb encodable reqs = true ->
  exists futs c255,
    send_all reqs c = (Ok futs, c255) /\
    _seq c255 = 255 /\ is_connected c255 = true /\
    forall opcode payload,
      send_msg_issue opcode payload c255
      = (Raise OverflowError, set_seq 256 c255) /\
      send_msg_issue opcode payload (set_seq 256 c255)
      = (Raise OverflowError, set_seq 257 c255).
Proof.
  intros Hc Hw Hs Hlen Hen.
  destruct (send_all_ok reqs c Hc Hw Hen) as (futs & c' & Hall & _ & Hseq & Hc' & _);
    [lia | lia |].
  rewrite Hs, Hlen in Hseq. change (0 + Z.of_nat 255) with 255 in Hseq.
  exists futs, c'. repeat split; try assumption.
  - rewrite send_msg_issue_overflow by (assumption || lia).
    rewrite Hseq. reflexivity.
  - rewrite send_msg_issue_overflow by (cbn; assumption || lia).
    reflexivity.
Qed.

(** The registration itself is a plain store, [self._pending[seq] = fut]:
    [send_msg] does not look at the table, its outcome (success, or which
    exception) is the same whatever the table holds, and on success the new
    future is stored under the new sequence number, the futures created
    before being left as they were. *)
Lemma send_msg_registers_unconditionally opcode payload c (m : gmap Z nat) :
  fst (send_msg_issue opcode payload (set_pending m c))
  = fst (send_msg_issue opcode payload c)
  /\
  (forall fut c',
     send_msg_issue opcode payload c = (Ok fut, c') ->
     fut = length (futures c) /\
     _pending c' = <[_seq c + 1 := fut]> (_pending c) /\
     futures c' = futures c ++ [Pending]).
Proof.
  rewrite !send_msg_issue_unfold.
  cbn [set_pending is_connected _seq _socket futures _pending].
  destruct (is_connected c); [|split; [reflexivity | discriminate]].
  destruct (_pack_packet 10 0 (_seq c + 1) opcode payload) as [packet|e];
    [|split; [reflexivity | discriminate]].
  cbv zeta. destruct (_socket c) as [s|]; [|split; [reflexivity | discriminate]].
  destruct (sock_sendall packet s) as [[[]|e] s'];
    (split; [reflexivity|]); [|discriminate].
  intros fut c' [= <- <-]. repeat split.
Qed.

Lemma cancel_task_futures (t : task) (fs : list future) (f : nat) :
  snd (cancel_task t fs) !! f = fs !! f \/
  (fs !! f = Some Pending /\ snd (cancel_task t fs) !! f = Some Cancelled /\
   task_waiter t = Some f).
Proof.
  unfold cancel_task. cbn [snd].
  destruct (task_waiter t) as [w|]; [|left; reflexivity].
  destruct (fs !! w) as [[| |]|] eqn:E; try (left; reflexivity).
  destruct (decide (w = f)) as [->|Hne].
  - right. split; [exact E|]. split; [|reflexivity].
    apply list_lookup_insert_eq. apply lookup_lt_Some in E. exact E.
  - left. apply list_lookup_insert_ne. exact Hne.
Qed.

Lemma recv_loop_not_connected fuel c :
  is_connected c = false -> _recv_loop fuel c = (Stopped, c).
Proof. intros H. destruct fuel; cbn [_recv_loop]; rewrite H; reflexivity. Qed.

Lemma cancel_task_fst (t : task) (fs : list future) :
  fst (cancel_task t fs) = mkTask true (task_waiter t).
Proof. reflexivity. Qed.

Lemma cancel_task_not_pending (t : task) (fs : list future) (f : nat) :
  task_waiter t = Some f -> snd (cancel_task t fs) !! f <> Some Pending.
Proof.
  intros Hw. unfold cancel_task. cbn [snd]. rewrite Hw.
  destruct (fs !! f) as [[| |]|] eqn:E; try congruence.
  rewrite list_lookup_insert_eq by (apply lookup_lt_Some in E; exact E).
  discriminate.
Qed.

Lemma cancel_task_keeps_not_pending (t : task) (fs : list future) (f : nat) :
  fs !! f <> Some Pending -> snd (cancel_task t fs) !! f <> Some Pending.
Proof.
  intros Hf. destruct (cancel_task_futures t fs f) as [-> | (H & _)];
    [exact Hf | contradiction].
Qed.

Lemma cancel_task_noop (t : task) (fs : list future) :
  (forall f, task_waiter t = Some f -> fs !! f <> Some Pending) ->
  snd (cancel_task t fs) = fs.
Proof.
  intros H. unfold cancel_task. cbn [snd].
  destruct (task_waiter t) as [f|]; [|reflexivity].
  specialize (H f eq_refl). destruct (fs !! f) as [[| |]|]; congruence.
Qed.

(** [close], field by field. *)
Lemma close_unfold (c : MiniSocketClient) :
  close c
  = mkClient (option_map sock_close (_socket c)) (_seq c) (_pending c) false
             (ping_interval c)
             (option_map (fun t => mkTask true (task_waiter t)) (_recv_task c))
             (option_map (fun t => mkTask true (task_waiter t)) (_ping_task c))
             (let fs1 := match _recv_task c with
                         | Some t => snd (cancel_task t (futures c))
                         | None => futures c
                         end in
              match _ping_task c with
              | Some t => snd (cancel_task t fs1)
              | None => fs1
              end)
             (stdout c).
Proof.
  destruct c as [[s|] sq pd ic pi [rt|] [pt|] fs out]; reflexivity.
Qed.

Lemma cancel_task_length (t : task) (fs : list future) :
  length (snd (cancel_task t fs)) = length fs.
Proof.
  unfold cancel_task. cbn [snd].
  destruct (task_waiter t) as [f|]; [|reflexivity].
  destruct (fs !! f) as [[| |]|]; try reflexivity. apply length_insert.
Qed.

Lemma close_futures_length c : length (futures (close c)) = length (futures c).
Proof.
  rewrite close_unfold. cbn [futures]. cbv zeta.
  destruct (_recv_task c), (_ping_task c); rewrite ?cancel_task_length; reflexivity.
Qed.

Lemma cancel_task_lookup (t : task) (fs : list future) (f : nat) :
  snd (cancel_task t fs) !! f
  = if task_waits_on (Some t) f then
      match fs !! f with
      | Some Pending => Some Cancelled
      | o => o
      end
    else fs !! f.
Proof.
  unfold cancel_task, task_waits_on. destruct t as [tc [w|]]; cbn [snd task_waiter];
    [|reflexivity].
  case_bool_decide as Hw.
  - subst w. destruct (fs !! f) as [[| |]|] eqn:E; rewrite ?E; try reflexivity.
    apply list_lookup_insert_eq. apply lookup_lt_Some in E. exact E.
  - destruct (fs !! w) as [[| |]|]; try reflexivity.
    apply list_lookup_insert_ne. exact Hw.
Qed.

(** What [close] makes of each future. *)
Lemma close_futures_lookup c (f : nat) :
  futures (close c) !! f
  = if awaited_by_task c f then
      match futures c !! f with
      | Some Pending => Some Cancelled
      | o => o
      end
    else futures c !! f.
Proof.
  rewrite close_unfold. cbn [futures]. cbv zeta. unfold awaited_by_task.
  destruct (_recv_task c) as [t1|], (_ping_task c) as [t2|];
    rewrite ?cancel_task_lookup;
    change (task_waits_on None f) with false; cbn [orb];
    rewrite ?orb_false_r; try reflexivity.
  destruct (task_waits_on (Some t1) f), (task_waits_on (Some t2) f); cbn [orb];
    try reflexivity.
  destruct (futures c !! f) as [[| |]|]; reflexivity.
Qed.

(** C1 (amended). [close] marks the client not connected, closes the
    socket (nothing is written to it) and requests the cancellation of the
    two background tasks.  It leaves the counter and the table of pending
    requests as they are and gives no future a result or a failure.  The
    futures it changes are exactly those that are pending and that a
    background task is suspended on: they are cancelled with the task.
    Every other future is left as it was, so an unresolved request of a
    caller stays unresolved, and the receive loop, the only code that
    resolves requests, does not run again.  Any [send_msg] after [close]
    raises at once. *)
Theorem close_spec c :
  is_connected (close c) = false /\
  _seq (close c) = _seq c /\
  _pending (close c) = _pending c /\
  ping_interval (close c) = ping_interval c /\
  stdout (close c) = stdout c /\
  match _socket c with
  | Some s =>
      _socket (close c)
      = Some (mkSocket (sock_in s) (sock_out s) true (sock_send_fails s))
  | None => _socket (close c) = None
  end /\
  _recv_task (close c)
  = option_map (fun t => mkTask true (task_waiter t)) (_recv_task c) /\
  _ping_task (close c)
  = option_map (fun t => mkTask true (task_waiter t)) (_ping_task c) /\
  length (futures (close c)) = length (futures c) /\
  (forall f : nat,
     futures (close c) !! f
     = if awaited_by_task c f then
         match futures c !! f with
         | Some Pending => Some Cancelled
         | o => o
         end
       else futures c !! f) /\
  (forall k f,
     _pending c !! k = Some f -> awaited_by_task c f = false ->
     _pending (close c) !! k = Some f /\
     await_future f (close c) = await_future f c /\
     forall fuel,
       await_future f (snd (_recv_loop fuel (close c))) = await_future f c) /\
  (forall fuel, _recv_loop fuel (close c) = (Stopped, close c)) /\
  (forall opcode payload,
     send_msg_issue opcode payload (close c)
     = (Raise (RuntimeError "Socket not connected"), close c)).
Proof.
  pose proof (close_fields c) as (Hs & Hp & Hc).
  assert (Hloop : forall fuel, _recv_loop fuel (close c) = (Stopped, close c))
    by (intros fuel; apply recv_loop_not_connected; exact Hc).
  split; [exact Hc|]. split; [exact Hs|]. split; [exact Hp|].
  split; [rewrite close_unfold; reflexivity|].
  split; [rewrite close_unfold; reflexivity|].
  split; [rewrite close_unfold; destruct (_socket c); reflexivity|].
  split; [rewrite close_unfold; reflexivity|].
  split; [rewrite close_unfold; reflexivity|].
  split; [apply close_futures_length|].
  split; [apply close_futures_lookup|].
  split.
  { intros k f Hk Hw.
    assert (Haw : await_future f (close c) = await_future f c)
      by (unfold await_future; rewrite close_futures_lookup, Hw; reflexivity).
    split; [rewrite Hp; exact Hk|]. split; [exact Haw|].
    intros fuel. rewrite Hloop. exact Haw. }
  split; [exact Hloop|].
  intros opcode payload. apply send_msg_issue_not_connected. exact Hc.
Qed.

Lemma set_socket_same c s : _socket c = Some s -> set_socket (Some s) c = c.
Proof. destruct c. cbn. intros ->. reflexivity. Qed.

Lemma recv_exactly_eof n c s :
  _socket c = Some s -> sock_closed s = false ->
  (sock_in s = [] \/ exists rest, sock_in s = Chunk [] :: rest) ->
  _recv_exactly (S n) c = (Ok [], c).
Proof.
  intros Hs Hcl Hin. unfold _recv_exactly.
  cbn [recv_exactly_loop length Nat.ltb Nat.leb]. unfold bind, with_socket.
  rewrite Hs. unfold sock_recv. rewrite Hcl.
  destruct Hin as [-> | [rest ->]]; rewrite set_socket_same by exact Hs;
    reflexivity.
Qed.


(** C9. An exception raised in an iteration of the receive loop does not end
    the loop: it is printed, the loop pauses for a second and goes on with
    the next iteration; the client is still connected and its table and
    futures are as before the iteration.  After that iteration the loop is
    still running, in the state the handler left, and the iteration that
    follows is an ordinary one from that state: whatever the loop does from
    there, it does after the failed iteration. *)
Theorem recv_iteration_exception_continues c e c1 :
  is_connected c = true ->
  recv_body c = (Raise e, c1) ->
  recv_iteration c = (false, recv_handler e c1) /\
  is_connected (recv_handler e c1) = true /\
  _pending (recv_handler e c1) = _pending c /\
  futures (recv_handler e c1) = futures c /\
  stdout (recv_handler e c1) = stdout c ++ [Printed "Recv loop error:" e; Sleep 1] /\
  _recv_loop 1 c = (Running, recv_handler e c1) /\
  (forall fuel, _recv_loop (S fuel) c = _recv_loop fuel (recv_handler e c1)) /\
  (forall fuel,
     _recv_loop (S (S fuel)) c
     = match recv_iteration (recv_handler e c1) with
       | (true, c2) => (Stopped, c2)
       | (false, c2) => _recv_loop fuel c2
       end).
Proof.
  intros Hc Hb.
  pose proof (recv_body_raise c e c1 Hb) as (_ & Hp & Hic & _ & _ & _ & Hf & Ho).
  assert (Hit : recv_iteration c = (false, recv_handler e c1))
    by (unfold recv_iteration; rewrite Hb; reflexivity).
  assert (Hc1 : is_connected (recv_handler e c1) = true) by (cbn; congruence).
  split; [exact Hit|].
  split; [exact Hc1|]. split; [exact Hp|]. split; [exact Hf|].
  split; [cbn; rewrite Ho; reflexivity|].
  split; [cbn [_recv_loop]; rewrite Hc, Hit, Hc1; reflexivity|].
  split.
  - intros fuel. cbn [_recv_loop]. rewrite Hc, Hit. reflexivity.
  - intros fuel. cbn [_recv_loop]. rewrite Hc, Hit, Hc1. reflexivity.
Qed.

End ClientClaims.

(** ** The client on the format models *)

Lemma seq_counter_overflows_witness :
  exists futs c255,
    send_all (pings 255) (connected []) = (Ok futs, c255) /\
    _seq c255 = 255 /\ is_connected c255 = true /\
    forall opcode payload,
      send_msg_issue opcode payload c255
      = (Raise OverflowError, set_seq 256 c255) /\
      send_msg_issue opcode payload (set_seq 256 c255)
      = (Raise OverflowError, set_seq 257 c255).
Proof.
  apply (seq_counter_overflows (pings 255) (connected []));
    vm_compute; reflexivity.
Defined.

(** The 256th keepalive on a connection: [OverflowError], with the counter
    at 256. *)
Example ping_256_overflows :
  let r := send_all (pings 256) (connected []) in
  fst r = Raise OverflowError /\ _seq (snd r) = 256.
Proof. vm_compute. split; reflexivity. Qed.

(** The store on a hand-built client object, one that the methods of the
    client never produce: with a pending slot under sequence number 1
    (future 0) and the counter at 0, [send_msg] raises nothing and stores
    the new future 1 under 1; future 0 is still pending and no longer in
    the table. *)
Example store_on_occupied_number :
  _pending colliding_client !! 1 = Some 0%nat /\
  futures colliding_client !! 0%nat = Some Pending /\
  exists c',
    send_msg_issue 6 (VDict []) colliding_client = (Ok 1%nat, c') /\
    _pending c' !! 1 = Some 1%nat /\
    futures c' !! 0%nat = Some Pending /\
    forall k, _pending c' !! k <> Some 0%nat.
Proof.
  split; [reflexivity|]. split; [reflexivity|].
  eexists. split.
  - apply (send_msg_issue_ok 6 (VDict []) colliding_client (fresh_socket [])
             [x0a; x00; x00; x01; x00; x06; x00; x00; x00; x01; x80]);
      vm_compute; reflexivity.
  - cbn [_pending futures colliding_client _seq length].
    change (0 + 1) with 1.
    split; [apply lookup_insert_eq|]. split; [reflexivity|].
    intros k. destruct (decide (k = 1)) as [->|Hne].
    + rewrite lookup_insert_eq. discriminate.
    + rewrite lookup_insert_ne, lookup_singleton_ne by congruence. discriminate.
Qed.

Lemma close_spec_witness :
  let c := ping_and_request_sent in
  _ping_task c = Some (mkTask false (Some 0%nat)) /\
  _pending c !! 1 = Some 0%nat /\ _pending c !! 2 = Some 1%nat /\
  is_connected (close c) = false /\
  _socket (close c)
  = Some (mkSocket []
            ([x0a; x00; x00; x01; x00; x01; x00; x00; x00; x01; x80]
             ++ [x0a; x00; x00; x02; x00; x06; x00; x00; x00; x01; x80])
            true false) /\
  _recv_task (close c) = Some (mkTask true None) /\
  _ping_task (close c) = Some (mkTask true (Some 0%nat)) /\
  _pending (close c) = _pending c /\
  await_future 0 (close c) = RaisesCancelled /\
  await_future 1 (close c) = Suspended /\
  (forall fuel, await_future 1 (snd (_recv_loop fuel (close c))) = Suspended) /\
  fst (send_msg_issue 6 (VDict []) (close c))
  = Raise (RuntimeError "Socket not connected").
Proof.
  cbv zeta.
  destruct (close_spec ping_and_request_sent)
    as (Hc & _ & Hp & _ & _ & Hso & Hrt & Hpt & _ & Hf & Hslot & _ & Hsend).
  assert (H2 : _pending ping_and_request_sent !! 2 = Some 1%nat)
    by (vm_compute; reflexivity).
  destruct (Hslot 2 1%nat H2 eq_refl) as (_ & Haw & Hlater).
  split; [reflexivity|]. split; [vm_compute; reflexivity|]. split; [exact H2|].
  split; [exact Hc|]. split; [exact Hso|]. split; [exact Hrt|].
  split; [exact Hpt|]. split; [exact Hp|].
  split; [unfold await_future; rewrite Hf; reflexivity|].
  split; [rewrite Haw; reflexivity|].
  split; [intros fuel; rewrite Hlater; reflexivity|].
  rewrite Hsend. reflexivity.
Defined.

(** C1 (as stated) fails: a request is sent and not yet answered when
    [close] is called.  Its future is still pending after [close] and stays
    so: the receive loop has stopped. *)
Lemma close_leaves_future_pending :
  let c := one_request_sent [] in
  _pending c !! 1 = Some 0%nat /\
  await_future 0 c = Suspended /\
  futures (close c) !! 0%nat = Some Pending /\
  forall fuel, await_future 0 (snd (_recv_loop fuel (close c))) = Suspended.
Proof.
  cbv zeta. split; [reflexivity|]. split; [reflexivity|]. split; [reflexivity|].
  intros fuel. rewrite recv_loop_not_connected by reflexivity. reflexivity.
Qed.



Lemma recv_iteration_exception_continues_witness :
  let c := one_request_sent [Chunk malformed_frame; Chunk response_frame] in
  let c1 := snd (recv_body c) in
  recv_iteration c = (false, recv_handler FormatError c1) /\
  is_connected (recv_handler FormatError c1) = true /\
  _pending (recv_handler FormatError c1) = _pending c /\
  futures (recv_handler FormatError c1) = futures c /\
  stdout (recv_handler FormatError c1)
  = stdout c ++ [Printed "Recv loop error:" FormatError; Sleep 1] /\
  _recv_loop 1 c = (Running, recv_handler FormatError c1) /\
  (forall fuel, _recv_loop (S fuel) c = _recv_loop fuel (recv_handler FormatError c1)) /\
  (forall fuel,
     _recv_loop (S (S fuel)) c
     = match recv_iteration (recv_handler FormatError c1) with
       | (true, c2) => (Stopped, c2)
       | (false, c2) => _recv_loop fuel c2
       end).
Proof.
  apply recv_iteration_exception_continues.
  - reflexivity.
  - vm_compute. reflexivity.
Defined.

(** After the malformed frame the loop reads the next frame and resolves
    the request with it. *)
Example recv_loop_goes_on_after_malformed_frame :
  let c := one_request_sent [Chunk malformed_frame; Chunk response_frame] in
  await_future 0 (snd (_recv_loop 2 c)) = Returns response_payload.
Proof. vm_compute. reflexivity. Qed.

(** * Further properties of the client *)

(** ** [_recv_exactly] on the byte stream *)

Lemma stream_tail_cases (evs : list recv_event) :
  at_eof evs = true \/ at_error evs = true.
Proof.
  unfold at_eof, at_error.
  induction evs as [|[[|b bs]|] rest IH]; cbn [stream_tail]; auto.
Qed.

Lemma stream_tail_idem (evs : list recv_event) :
  stream_tail (stream_tail evs) = stream_tail evs.
Proof. induction evs as [|[[|b bs]|] rest IH]; cbn [stream_tail]; auto. Qed.

Lemma stream_bytes_tail (evs : list recv_event) :
  stream_bytes (stream_tail evs) = [].
Proof. induction evs as [|[[|b bs]|] rest IH]; cbn [stream_tail stream_bytes]; auto. Qed.

(** What the loop of [_recv_exactly] makes of the stream: the missing bytes
    when the stream has them, all the stream has when it ends before, an
    [OSError] when it fails before. *)
Lemma recv_exactly_loop_stream fuel n buf c s :
  _socket c = Some s -> sock_closed s = false ->
  (n - length buf <= fuel)%nat ->
  exists s',
    snd (recv_exactly_loop fuel n buf c) = set_socket (Some s') c /\
    sock_out s' = sock_out s /\ sock_closed s' = false /\
    sock_send_fails s' = sock_send_fails s /\
    (((n - length buf <= length (stream_bytes (sock_in s)))%nat /\
      fst (recv_exactly_loop fuel n buf c)
      = Ok (buf ++ firstn (n - length buf) (stream_bytes (sock_in s))) /\
      stream_bytes (sock_in s') = skipn (n - length buf) (stream_bytes (sock_in s)) /\
      stream_tail (sock_in s') = stream_tail (sock_in s))
     \/
     ((length (stream_bytes (sock_in s)) < n - length buf)%nat /\
      at_eof (sock_in s) = true /\
      fst (recv_exactly_loop fuel n buf c) = Ok (buf ++ stream_bytes (sock_in s)) /\
      sock_in s' = stream_tail (sock_in s))
     \/
     ((length (stream_bytes (sock_in s)) < n - length buf)%nat /\
      at_error (sock_in s) = true /\
      fst (recv_exactly_loop fuel n buf c) = Raise OSError /\
      sock_in s' = tl (stream_tail (sock_in s)))).
Proof.
  revert buf c s.
  induction fuel as [|fuel IH]; intros buf c s Hs Hcl Hfuel.
  - (* nothing is missing *)
    assert (Hn : (n - length buf = 0)%nat) by lia.
    exists s. cbn [recv_exactly_loop].
    destruct (length buf <? n)%nat eqn:E; [apply Nat.ltb_lt in E; lia|].
    unfold ret. cbn [fst snd]. rewrite set_socket_same by exact Hs.
    repeat split; try assumption. left. rewrite Hn. cbn [firstn skipn].
    rewrite app_nil_r. repeat split. lia.
  - cbn [recv_exactly_loop].
    destruct (length buf <? n)%nat eqn:E.
    2:{ apply Nat.ltb_ge in E.
        assert (Hn : (n - length buf = 0)%nat) by lia.
        exists s. unfold ret. cbn [fst snd]. rewrite set_socket_same by exact Hs.
        repeat split; try assumption. left. rewrite Hn. cbn [firstn skipn].
        rewrite app_nil_r. repeat split. lia. }
    apply Nat.ltb_lt in E.
    unfold bind, with_socket. rewrite Hs. unfold sock_recv. rewrite Hcl.
    destruct s as [evs out cl sf]. cbn [sock_in sock_out sock_closed sock_send_fails] in *.
    subst cl.
    destruct evs as [|[[|b bs]|] rest].
    + (* end of the stream *)
      eexists. unfold ret. cbn [fst snd]. split; [reflexivity|].
      cbn [sock_in sock_out sock_closed sock_send_fails stream_bytes stream_tail length].
      repeat split. right. left. rewrite app_nil_r. repeat split. lia.
    + (* the peer has shut down *)
      eexists. unfold ret. cbn [fst snd]. split; [reflexivity|].
      cbn [sock_in sock_out sock_closed sock_send_fails stream_bytes stream_tail length].
      repeat split. right. left. rewrite app_nil_r. repeat split. lia.
    + (* a chunk of bytes *)
      set (ch := b :: bs) in *.
      assert (Hch : (1 <= length ch)%nat) by (subst ch; cbn [length]; lia).
      destruct (length ch <=? n - length buf)%nat eqn:El.
      * apply Nat.leb_le in El.
        set (c1 := set_socket (Some (mkSocket rest out false sf)) c).
        destruct (IH (buf ++ ch) c1 (mkSocket rest out false sf) eq_refl eq_refl)
          as (s' & Hsnd & Ho & Hc' & Hf' & Hres).
        { rewrite length_app. lia. }
        exists s'. subst ch. cbn [fst snd] in *.
        change (set_socket (Some s') c1) with (set_socket (Some s') c) in Hsnd.
        split; [exact Hsnd|].
        cbn [sock_in sock_out sock_closed sock_send_fails] in *.
        split; [exact Ho|]. split; [exact Hc'|]. split; [exact Hf'|].
        cbn [stream_bytes stream_tail].
        set (ch := b :: bs) in *. set (B := stream_bytes rest) in *.
        assert (Hneed : (n - length (buf ++ ch) = n - length buf - length ch)%nat)
          by (rewrite length_app; lia).
        rewrite Hneed in Hres. rewrite length_app.
        destruct Hres as [(H1 & H2 & H3 & H4) | [(H1 & H2 & H3 & H4) | (H1 & H2 & H3 & H4)]].
        -- left. split; [lia|]. split; [|split; [|exact H4]].
           ++ rewrite H2, <- app_assoc. f_equal.
              rewrite firstn_app, (firstn_all2 ch) by lia. reflexivity.
           ++ rewrite H3, skipn_app, (skipn_all2 ch) by lia. reflexivity.
        -- right. left. split; [lia|].
           split; [unfold at_eof in *; cbn [stream_tail]; exact H2|].
           split; [rewrite H3, <- app_assoc; reflexivity | exact H4].
        -- right. right. split; [lia|].
           split; [unfold at_error in *; cbn [stream_tail]; exact H2|].
           split; [exact H3 | exact H4].
      * apply Nat.leb_gt in El.
        (* the chunk holds more than is missing: the loop ends *)
        assert (Hne : firstn (n - length buf) ch <> []).
        { subst ch. destruct (n - length buf)%nat eqn:En; [lia|]. discriminate. }
        destruct (firstn (n - length buf) ch) as [|f0 fs] eqn:Ef; [congruence|].
        rewrite <- Ef. clear Hne.
        set (s1 := mkSocket (Chunk (skipn (n - length buf) ch) :: rest) out false sf).
        assert (Hlen : length (buf ++ firstn (n - length buf) ch) = n).
        { rewrite length_app, length_firstn. lia. }
        assert (Hdone : forall c0,
                  recv_exactly_loop fuel n (buf ++ firstn (n - length buf) ch) c0
                  = (Ok (buf ++ firstn (n - length buf) ch), c0)).
        { intros c0. destruct fuel; cbn [recv_exactly_loop]; rewrite Hlen;
            rewrite Nat.ltb_irrefl; reflexivity. }
        rewrite Hdone. exists s1. cbn [fst snd].
        split; [reflexivity|].
        subst s1. cbn [sock_in sock_out sock_closed sock_send_fails].
        repeat split. left.
        assert (Hsk : exists k0 ks, skipn (n - length buf) ch = k0 :: ks).
        { destruct (skipn (n - length buf) ch) as [|k0 ks] eqn:Es;
            [|eauto].
          apply (f_equal (@length byte)) in Es. rewrite length_skipn in Es.
          cbn [length] in Es. lia. }
        destruct Hsk as (k0 & ks & Hsk).
        cbn [stream_bytes stream_tail]. rewrite Hsk. subst ch.
        cbn [stream_bytes stream_tail]. rewrite <- Hsk.
        set (ch := b :: bs) in *. rewrite length_app.
        split; [lia|]. split; [|split; [|reflexivity]].
        -- f_equal. rewrite firstn_app.
           replace (n - length buf - length ch)%nat with 0%nat by lia.
           cbn [firstn]. rewrite app_nil_r. reflexivity.
        -- rewrite skipn_app.
           replace (n - length buf - length ch)%nat with 0%nat by lia.
           reflexivity.
    + (* a read error *)
      eexists. cbn [fst snd]. split; [reflexivity|].
      cbn [sock_in sock_out sock_closed sock_send_fails stream_bytes stream_tail length tl].
      repeat split. right. right. repeat split. lia.
Qed.

(** X1. [_recv_exactly(n)] never returns more than [n] bytes, and whatever it
    does (return or raise) it changes nothing of the client but the socket,
    on which it writes nothing. *)
Theorem recv_exactly_at_most n c :
  same_but_socket c (snd (_recv_exactly n c)) /\
  (forall bs, fst (_recv_exactly n c) = Ok bs -> (length bs <= n)%nat) /\
  (forall s, _socket c = Some s ->
     exists s', _socket (snd (_recv_exactly n c)) = Some s' /\
                sock_out s' = sock_out s /\ sock_closed s' = sock_closed s).
Proof.
  split; [|split].
  - destruct (_recv_exactly n c) as [r c'] eqn:E.
    apply recv_exactly_same in E. exact E.
  - intros bs Hbs. unfold _recv_exactly in *.
    destruct n as [|n]; [cbn in Hbs; injection Hbs as <-; cbn; lia|].
    destruct (_socket c) as [s|] eqn:Hs.
    + destruct (sock_closed s) eqn:Hcl.
      * cbn [recv_exactly_loop length Nat.ltb Nat.leb] in Hbs.
        unfold bind, with_socket, sock_recv in Hbs. rewrite Hs, Hcl in Hbs.
        discriminate.
      * destruct (recv_exactly_loop_stream (S n) (S n) [] c s Hs Hcl ltac:(cbn; lia))
          as (s' & _ & _ & _ & _ & Hres).
        cbn [length app] in Hres. rewrite Nat.sub_0_r in Hres.
        destruct Hres as [(_ & H2 & _) | [(H1 & _ & H3 & _) | (_ & _ & H3 & _)]];
          rewrite Hbs in *.
        -- injection H2 as ->. rewrite length_firstn. lia.
        -- injection H3 as ->. lia.
        -- discriminate.
    + cbn [recv_exactly_loop length Nat.ltb Nat.leb] in Hbs.
      unfold bind, with_socket in Hbs. rewrite Hs in Hbs. discriminate.
  - intros s Hs. unfold _recv_exactly.
    destruct n as [|n]; [exists s; cbn; auto|].
    destruct (sock_closed s) eqn:Hcl.
    + cbn [recv_exactly_loop length Nat.ltb Nat.leb].
      unfold bind, with_socket, sock_recv. rewrite Hs, Hcl. cbn.
      exists s. auto.
    + destruct (recv_exactly_loop_stream (S n) (S n) [] c s Hs Hcl ltac:(cbn; lia))
        as (s' & Hsnd & Ho & Hc' & _).
      exists s'. rewrite Hsnd. cbn. split; [reflexivity|]. split; congruence.
Qed.

(** The two successful outcomes of [_recv_exactly], for the proofs below. *)
Lemma recv_exactly_stream_full n c s :
  _socket c = Some s -> sock_closed s = false ->
  (n <= length (stream_bytes (sock_in s)))%nat ->
  exists s',
    _recv_exactly n c
    = (Ok (firstn n (stream_bytes (sock_in s))), set_socket (Some s') c) /\
    stream_bytes (sock_in s') = skipn n (stream_bytes (sock_in s)) /\
    stream_tail (sock_in s') = stream_tail (sock_in s) /\
    sock_out s' = sock_out s /\ sock_closed s' = false /\
    sock_send_fails s' = sock_send_fails s.
Proof.
  intros Hs Hcl Hn. unfold _recv_exactly.
  destruct (recv_exactly_loop_stream n n [] c s Hs Hcl ltac:(cbn; lia))
    as (s' & Hsnd & Ho & Hc' & Hf' & Hres).
  cbn [length app] in Hres. rewrite Nat.sub_0_r in Hres.
  destruct Hres as [(_ & H2 & H3 & H4) | [(H1 & _) | (H1 & _)]]; try lia.
  exists s'. rewrite (surjective_pairing (recv_exactly_loop n n [] c)), H2, Hsnd.
  repeat split; assumption.
Qed.

Lemma recv_exactly_stream_eof n c s :
  _socket c = Some s -> sock_closed s = false ->
  (length (stream_bytes (sock_in s)) < n)%nat ->
  at_eof (sock_in s) = true ->
  exists s',
    _recv_exactly n c
    = (Ok (stream_bytes (sock_in s)), set_socket (Some s') c) /\
    sock_in s' = stream_tail (sock_in s) /\
    sock_out s' = sock_out s /\ sock_closed s' = false /\
    sock_send_fails s' = sock_send_fails s.
Proof.
  intros Hs Hcl Hn Heof. unfold _recv_exactly.
  destruct (recv_exactly_loop_stream n n [] c s Hs Hcl ltac:(cbn; lia))
    as (s' & Hsnd & Ho & Hc' & Hf' & Hres).
  cbn [length app] in Hres. rewrite Nat.sub_0_r in Hres.
  destruct Hres as [(H1 & _) | [(_ & _ & H3 & H4) | (_ & H2 & _)]]; try lia.
  - exists s'. rewrite (surjective_pairing (recv_exactly_loop n n [] c)), H3, Hsnd.
    repeat split; assumption.
  - unfold at_eof, at_error in *.
    destruct (stream_tail (sock_in s)) as [|[[|]|] ?]; discriminate.
Qed.

(** X2. When the stream holds at least [n] bytes, [_recv_exactly(n)] returns
    exactly the first [n] of them, however they are split into chunks, and
    leaves the following bytes in the stream. *)
Theorem recv_exactly_full n c s :
  _socket c = Some s -> sock_closed s = false ->
  (n <= length (stream_bytes (sock_in s)))%nat ->
  exists s',
    _recv_exactly n c
    = (Ok (firstn n (stream_bytes (sock_in s))), set_socket (Some s') c) /\
    stream_bytes (sock_in s') = skipn n (stream_bytes (sock_in s)) /\
    stream_tail (sock_in s') = stream_tail (sock_in s) /\
    sock_out s' = sock_out s /\ sock_closed s' = false /\
    sock_send_fails s' = sock_send_fails s.
Proof. apply recv_exactly_stream_full. Qed.

(** X3. When the peer shuts down after fewer than [n] bytes,
    [_recv_exactly(n)] returns those bytes, fewer than [n] (none at all when
    the stream is already at its end), and raises nothing. *)
Theorem recv_exactly_short_at_eof n c s :
  _socket c = Some s -> sock_closed s = false ->
  (length (stream_bytes (sock_in s)) < n)%nat ->
  at_eof (sock_in s) = true ->
  exists s',
    _recv_exactly n c
    = (Ok (stream_bytes (sock_in s)), set_socket (Some s') c) /\
    sock_in s' = stream_tail (sock_in s) /\
    sock_out s' = sock_out s /\ sock_closed s' = false /\
    sock_send_fails s' = sock_send_fails s.
Proof. apply recv_exactly_stream_eof. Qed.

(** X4. When a read fails before [n] bytes have arrived, [_recv_exactly(n)]
    raises the socket's error; the bytes read until then are neither
    returned nor left in the stream. *)
Theorem recv_exactly_error_discards n c s :
  _socket c = Some s -> sock_closed s = false ->
  (length (stream_bytes (sock_in s)) < n)%nat ->
  at_error (sock_in s) = true ->
  exists s',
    _recv_exactly n c = (Raise OSError, set_socket (Some s') c) /\
    sock_in s' = tl (stream_tail (sock_in s)) /\
    sock_out s' = sock_out s.
Proof.
  intros Hs Hcl Hn Herr. unfold _recv_exactly.
  destruct (recv_exactly_loop_stream n n [] c s Hs Hcl ltac:(cbn; lia))
    as (s' & Hsnd & Ho & Hc' & Hf' & Hres).
  cbn [length app] in Hres. rewrite Nat.sub_0_r in Hres.
  destruct Hres as [(H1 & _) | [(_ & H2 & _) | (_ & _ & H3 & H4)]]; try lia.
  - unfold at_eof, at_error in *.
    destruct (stream_tail (sock_in s)) as [|[[|]|] ?]; discriminate.
  - exists s'. rewrite (surjective_pairing (recv_exactly_loop n n [] c)), H3, Hsnd.
    repeat split; assumption.
Qed.

(** ** The receive loop on the byte stream *)

Lemma frame_of_split ver cmd seq opcode (pl : bytes) :
  frame_of ver cmd seq opcode pl = firstn 10 (frame_of ver cmd seq opcode pl) ++ pl.
Proof. reflexivity. Qed.

Lemma frame_of_length ver cmd seq opcode (pl : bytes) :
  length (frame_of ver cmd seq opcode pl) = (10 + length pl)%nat.
Proof. reflexivity. Qed.

Lemma from_bytes_be_digits_small (n : nat) (v : Z) :
  0 <= v < 256 ^ Z.of_nat n -> from_bytes (be_digits n v) = v.
Proof. intros H. rewrite from_bytes_be_digits. apply Z.mod_small. exact H. Qed.

Lemma frame_header_fields ver cmd seq opcode (pl : bytes) :
  fields_fit ver cmd seq opcode ->
  let header := firstn 10 (frame_of ver cmd seq opcode pl) in
  from_bytes (slice 0 1 header) = ver /\
  from_bytes (slice 1 3 header) = cmd /\
  from_bytes (slice 3 4 header) = seq /\
  from_bytes (slice 4 6 header) = opcode /\
  Z.land (from_bytes (slice 6 10 header)) 0xFFFFFF
  = Z.of_nat (length pl) mod 2 ^ 24.
Proof.
  intros (Hv & Hc & Hs & Ho). cbv zeta.
  change (slice 0 1 (firstn 10 (frame_of ver cmd seq opcode pl)))
    with (be_digits 1 ver).
  change (slice 1 3 (firstn 10 (frame_of ver cmd seq opcode pl)))
    with (be_digits 2 cmd).
  change (slice 3 4 (firstn 10 (frame_of ver cmd seq opcode pl)))
    with (be_digits 1 seq).
  change (slice 4 6 (firstn 10 (frame_of ver cmd seq opcode pl)))
    with (be_digits 2 opcode).
  change (slice 6 10 (firstn 10 (frame_of ver cmd seq opcode pl)))
    with (be_digits 4 (Z.land (Z.of_nat (length pl)) 0xFFFFFF)).
  rewrite !from_bytes_be_digits_small; try (simpl; lia).
  - repeat split. rewrite mask24_idem. apply mask24.
  - pose proof (mask24_range (Z.of_nat (length pl))).
    change (256 ^ Z.of_nat 4) with (2 ^ 32). lia.
Qed.

Section RecvLoopFacts.
Context {MP : Msgpack} {LZ : Lz4Block}.

(** One pass of the [try] block on a header and a body that decode. *)
Lemma recv_body_decoded c header ca body cb v :
  _recv_exactly 10 c = (Ok header, ca) ->
  header <> [] ->
  _recv_exactly
    (Z.to_nat (Z.land (from_bytes (slice 6 10 header)) 0xFFFFFF)) ca
  = (Ok body, cb) ->
  _unpack_packet (header ++ body) = Ok v ->
  recv_body c
  = (Ok false,
     match _pending cb !! from_bytes (slice 3 4 header) with
     | Some fut =>
         resolve fut v
           (set_pending (delete (from_bytes (slice 3 4 header)) (_pending cb)) cb)
     | None => cb
     end).
Proof.
  intros E1 Hne E2 Hu. unfold recv_body, bind. rewrite E1.
  destruct header as [|h0 header]; [congruence|].
  rewrite E2. unfold lift. rewrite Hu. unfold get.
  destruct (_pending cb !! _); reflexivity.
Qed.

(** A whole frame in the stream, in whatever chunks: the two reads of an
    iteration take exactly that frame. *)
Lemma recv_frame_reads c s ver cmd seq opcode (pl more : bytes) :
  _socket c = Some s -> sock_closed s = false ->
  stream_bytes (sock_in s) = frame_of ver cmd seq opcode pl ++ more ->
  fields_fit ver cmd seq opcode ->
  Z.of_nat (length pl) < 2 ^ 24 ->
  let header := firstn 10 (frame_of ver cmd seq opcode pl) in
  exists s1 s2,
    _recv_exactly 10 c = (Ok header, set_socket (Some s1) c) /\
    _recv_exactly
      (Z.to_nat (Z.land (from_bytes (slice 6 10 header)) 0xFFFFFF))
      (set_socket (Some s1) c)
    = (Ok pl, set_socket (Some s2) c) /\
    stream_bytes (sock_in s2) = more /\
    stream_tail (sock_in s2) = stream_tail (sock_in s) /\
    sock_out s2 = sock_out s /\ sock_closed s2 = false /\
    sock_send_fails s2 = sock_send_fails s.
Proof.
  intros Hs Hcl HB Hfit Hlen. cbv zeta.
  destruct (recv_exactly_stream_full 10 c s Hs Hcl)
    as (s1 & E1 & HB1 & HT1 & Ho1 & Hc1 & Hf1).
  { rewrite HB, length_app, frame_of_length. lia. }
  rewrite HB in E1, HB1.
  rewrite (frame_of_split ver cmd seq opcode pl), <- app_assoc in E1, HB1.
  rewrite (take_app_length' (firstn 10 (frame_of ver cmd seq opcode pl))) in E1
    by reflexivity.
  rewrite (drop_app_length' (firstn 10 (frame_of ver cmd seq opcode pl))) in HB1
    by reflexivity.
  destruct (frame_header_fields ver cmd seq opcode pl Hfit) as (_ & _ & _ & _ & HL).
  cbv zeta in HL. rewrite HL, Z.mod_small, Nat2Z.id by lia.
  destruct (recv_exactly_stream_full (length pl) (set_socket (Some s1) c) s1 eq_refl Hc1)
    as (s2 & E2 & HB2 & HT2 & Ho2 & Hc2 & Hf2).
  { rewrite HB1, length_app. lia. }
  rewrite HB1, take_app_length in E2. rewrite HB1, drop_app_length in HB2.
  exists s1, s2. split; [exact E1|]. split; [exact E2|].
  repeat split; congruence.
Qed.

End RecvLoopFacts.

Section RecvLoopClaims.
Context {MP : Msgpack} {LZ : Lz4Block}.

(** An iteration on a whole frame that decodes, with a pending request
    under the frame's sequence number. *)
Lemma recv_iteration_frame_resolves c s ver cmd seq opcode (pl more : bytes) v fut :
  _socket c = Some s -> sock_closed s = false ->
  stream_bytes (sock_in s) = frame_of ver cmd seq opcode pl ++ more ->
  fields_fit ver cmd seq opcode ->
  Z.of_nat (length pl) < 2 ^ 24 ->
  _unpack_packet (frame_of ver cmd seq opcode pl) = Ok v ->
  _pending c !! seq = Some fut ->
  futures c !! fut = Some Pending ->
  exists c' s',
    recv_iteration c = (false, c') /\
    _socket c' = Some s' /\ stream_bytes (sock_in s') = more /\
    sock_out s' = sock_out s /\
    _pending c' = delete seq (_pending c) /\
    futures c' = <[fut := Result v]> (futures c) /\
    await_future fut c' = Returns v /\
    is_connected c' = is_connected c /\ _seq c' = _seq c.
Proof.
  intros Hs Hcl HB Hfit Hlen Hu Hp Hf.
  destruct (recv_frame_reads c s ver cmd seq opcode pl more Hs Hcl HB Hfit Hlen)
    as (s1 & s2 & E1 & E2 & HB2 & _ & Ho2 & _).
  cbv zeta in E1, E2.
  destruct (frame_header_fields ver cmd seq opcode pl Hfit) as (_ & _ & Hseq & _).
  cbv zeta in Hseq.
  assert (Hne : firstn 10 (frame_of ver cmd seq opcode pl) <> []) by discriminate.
  rewrite (frame_of_split ver cmd seq opcode pl) in Hu.
  pose proof (recv_body_decoded c _ _ _ _ v E1 Hne E2 Hu) as Hbody.
  rewrite Hseq in Hbody. cbn [_pending set_socket] in Hbody. rewrite Hp in Hbody.
  unfold resolve in Hbody. cbn [futures set_pending set_socket] in Hbody.
  rewrite Hf in Hbody. cbn [done] in Hbody.
  eexists _, s2. unfold recv_iteration. rewrite Hbody.
  split; [reflexivity|]. cbn.
  repeat split; try assumption.
  unfold await_future. cbn.
  rewrite list_lookup_insert_eq; [reflexivity|].
  apply lookup_lt_Some in Hf. exact Hf.
Qed.

(** X5. When the stream holds a whole frame (in whatever chunks) that
    decodes to [v], and a request is pending under the frame's sequence
    number, one iteration of the receive loop takes exactly that frame from
    the stream, removes the slot and gives [v] to its future; the bytes after
    the frame stay in the stream and nothing is written. *)
Theorem recv_iteration_complete_frame c s ver cmd seq opcode (pl more : bytes) v fut :
  _socket c = Some s -> sock_closed s = false ->
  stream_bytes (sock_in s) = frame_of ver cmd seq opcode pl ++ more ->
  fields_fit ver cmd seq opcode ->
  Z.of_nat (length pl) < 2 ^ 24 ->
  _unpack_packet (frame_of ver cmd seq opcode pl) = Ok v ->
  _pending c !! seq = Some fut ->
  futures c !! fut = Some Pending ->
  exists c' s',
    recv_iteration c = (false, c') /\
    _socket c' = Some s' /\ stream_bytes (sock_in s') = more /\
    sock_out s' = sock_out s /\
    _pending c' = delete seq (_pending c) /\
    futures c' = <[fut := Result v]> (futures c) /\
    await_future fut c' = Returns v /\
    is_connected c' = is_connected c /\ _seq c' = _seq c.
Proof. apply recv_iteration_frame_resolves. Qed.

(** X6. A frame that decodes but whose sequence number has no pending
    request is dropped: the iteration takes the frame from the stream and
    changes nothing else, and the loop goes on. *)
Theorem recv_iteration_unmatched_dropped c s ver cmd seq opcode (pl more : bytes) v :
  _socket c = Some s -> sock_closed s = false ->
  stream_bytes (sock_in s) = frame_of ver cmd seq opcode pl ++ more ->
  fields_fit ver cmd seq opcode ->
  Z.of_nat (length pl) < 2 ^ 24 ->
  _unpack_packet (frame_of ver cmd seq opcode pl) = Ok v ->
  _pending c !! seq = None ->
  exists s',
    recv_iteration c = (false, set_socket (Some s') c) /\
    stream_bytes (sock_in s') = more /\ sock_out s' = sock_out s.
Proof.
  intros Hs Hcl HB Hfit Hlen Hu Hp.
  destruct (recv_frame_reads c s ver cmd seq opcode pl more Hs Hcl HB Hfit Hlen)
    as (s1 & s2 & E1 & E2 & HB2 & _ & Ho2 & _).
  cbv zeta in E1, E2.
  destruct (frame_header_fields ver cmd seq opcode pl Hfit) as (_ & _ & Hseq & _).
  cbv zeta in Hseq.
  assert (Hne : firstn 10 (frame_of ver cmd seq opcode pl) <> []) by discriminate.
  rewrite (frame_of_split ver cmd seq opcode pl) in Hu.
  pose proof (recv_body_decoded c _ _ _ _ v E1 Hne E2 Hu) as Hbody.
  rewrite Hseq in Hbody. cbn [_pending set_socket] in Hbody. rewrite Hp in Hbody.
  exists s2. unfold recv_iteration. rewrite Hbody. repeat split; assumption.
Qed.

End RecvLoopClaims.

(** ** Frames without a payload, and headers cut short *)

Lemma stream_tail_no_bytes (evs : list recv_event) :
  stream_bytes evs = [] -> stream_tail evs = evs.
Proof. destruct evs as [|[[|b bs]|] rest]; cbn; congruence. Qed.

Lemma at_eof_tail (evs : list recv_event) :
  at_eof (stream_tail evs) = at_eof evs.
Proof. unfold at_eof. rewrite stream_tail_idem. reflexivity. Qed.

Lemma at_eof_shape (evs : list recv_event) :
  at_eof evs = true ->
  stream_tail evs = [] \/ exists rest, stream_tail evs = Chunk [] :: rest.
Proof.
  unfold at_eof. destruct (stream_tail evs) as [|[[|b bs]|] rest]; try discriminate; eauto.
Qed.

(** A read on a stream that has ended gives the empty string. *)
Lemma recv_exactly_ended n c s :
  _socket c = Some s -> sock_closed s = false ->
  stream_bytes (sock_in s) = [] -> at_eof (sock_in s) = true ->
  exists s',
    _recv_exactly n c = (Ok [], set_socket (Some s') c) /\
    sock_in s' = sock_in s /\ sock_out s' = sock_out s /\
    sock_closed s' = false.
Proof.
  intros Hs Hcl HB Heof. destruct n as [|n].
  - exists s. cbn. rewrite set_socket_same by exact Hs. auto.
  - destruct (recv_exactly_stream_eof (S n) c s Hs Hcl) as (s' & E & Hin & Ho & Hc' & _).
    + rewrite HB. cbn. lia.
    + exact Heof.
    + exists s'. rewrite HB in E. rewrite stream_tail_no_bytes in Hin by exact HB.
      auto.
Qed.

Section ShortFrames.
Context {MP : Msgpack} {LZ : Lz4Block}.

Lemma unpack_packet_short (data : bytes) :
  (length data <= 10)%nat -> _unpack_packet data = Ok VNone.
Proof.
  intros H. unfold _unpack_packet, frame_payload_bytes.
  rewrite skipn_all2 by exact H. rewrite firstn_nil. reflexivity.
Qed.

(** X7. [_unpack_packet] gives [None], without calling the decompressor or
    msgpack, on every byte string of at most ten bytes (the empty string
    included) and on every byte string whose length field, masked to 24
    bits, is zero, whatever follows the header. *)
Theorem unpack_packet_no_payload (data : bytes) :
  (length data <= 10)%nat \/ frame_payload_len data = 0 ->
  _unpack_packet data = Ok VNone.
Proof.
  intros [H | H]; [apply unpack_packet_short; exact H|].
  unfold _unpack_packet, frame_payload_bytes. rewrite H. reflexivity.
Qed.

(** X8. A header cut short: when the peer shuts down after between one and
    nine bytes, the iteration does not fail.  It reads the bytes as a frame
    without payload and resolves the request pending under the number in
    byte 3 (0 when there is no byte 3) with [None]; the next iteration then
    finds the stream ended and stops the loop. *)
Theorem recv_truncated_header_resolves_none c s fut :
  is_connected c = true ->
  _socket c = Some s -> sock_closed s = false ->
  (0 < length (stream_bytes (sock_in s)) < 10)%nat ->
  at_eof (sock_in s) = true ->
  _pending c !! from_bytes (slice 3 4 (stream_bytes (sock_in s))) = Some fut ->
  futures c !! fut = Some Pending ->
  exists c',
    recv_iteration c = (false, c') /\
    futures c' = <[fut := Result VNone]> (futures c) /\
    await_future fut c' = Returns VNone /\
    _pending c' = delete (from_bytes (slice 3 4 (stream_bytes (sock_in s)))) (_pending c) /\
    forall fuel, _recv_loop (S (S fuel)) c = (Stopped, set_is_connected false c').
Proof.
  intros Hc Hs Hcl Hlen Heof Hp Hf.
  set (B := stream_bytes (sock_in s)) in *.
  destruct (recv_exactly_stream_eof 10 c s Hs Hcl ltac:(fold B; lia) Heof)
    as (s1 & E1 & Hin1 & Ho1 & Hc1 & _).
  fold B in E1.
  assert (HB1 : stream_bytes (sock_in s1) = [])
    by (rewrite Hin1; apply stream_bytes_tail).
  assert (Heof1 : at_eof (sock_in s1) = true)
    by (rewrite Hin1, at_eof_tail; exact Heof).
  destruct (recv_exactly_ended
              (Z.to_nat (Z.land (from_bytes (slice 6 10 B)) 0xFFFFFF))
              (set_socket (Some s1) c) s1 eq_refl Hc1 HB1 Heof1)
    as (s2 & E2 & Hin2 & Ho2 & Hc2).
  assert (Hne : B <> []) by (intros HB; rewrite HB in Hlen; cbn in Hlen; lia).
  assert (Hu : _unpack_packet (B ++ []) = Ok VNone)
    by (apply unpack_packet_short; rewrite app_nil_r; lia).
  pose proof (recv_body_decoded c B _ [] _ VNone E1 Hne E2 Hu) as Hbody.
  cbn [_pending set_socket] in Hbody. rewrite Hp in Hbody.
  unfold resolve in Hbody. cbn [futures set_pending set_socket] in Hbody.
  rewrite Hf in Hbody. cbn [done] in Hbody.
  assert (Hit : recv_iteration c
                = (false,
                   set_futures (<[fut:=Result VNone]> (futures c))
                     (set_pending (delete (from_bytes (slice 3 4 B)) (_pending c))
                        (set_socket (Some s2) c))))
    by (unfold recv_iteration; rewrite Hbody; destruct c; reflexivity).
  eexists. split; [exact Hit|].
  split; [reflexivity|].
  split.
  { unfold await_future. cbn.
    rewrite list_lookup_insert_eq; [reflexivity|].
    apply lookup_lt_Some in Hf. exact Hf. }
  split; [reflexivity|].
  intros fuel. cbn [_recv_loop]. rewrite Hc, Hit.
  cbn [is_connected set_futures set_pending set_socket]. rewrite Hc.
  unfold recv_iteration, recv_body, bind.
  match goal with
  | |- context [_recv_exactly 10 ?c1] =>
      rewrite (recv_exactly_eof 9 c1 s2 eq_refl Hc2)
  end.
  - reflexivity.
  - rewrite Hin2, Hin1. apply at_eof_shape. exact Heof.
Qed.

End ShortFrames.

(** ** [_pack_packet]: when it raises, and what its header holds *)

Lemma to_bytes_cases (n : nat) (v : Z) :
  (0 <= v < 256 ^ Z.of_nat n /\ to_bytes n v = Ok (be_digits n v)) \/
  (~ 0 <= v < 256 ^ Z.of_nat n /\ to_bytes n v = Raise OverflowError).
Proof.
  unfold to_bytes.
  destruct (0 <=? v) eqn:H0; destruct (v <? 256 ^ Z.of_nat n) eqn:H1; cbn [andb];
    try apply Z.leb_le in H0; try apply Z.leb_gt in H0;
    try apply Z.ltb_lt in H1; try apply Z.ltb_ge in H1;
    [left | right | right | right]; split; try reflexivity; lia.
Qed.

Section PackFacts.
Context {MP : Msgpack} {LZ : Lz4Block}.

Lemma pack_packet_not_fit ver cmd seq opcode (P : value) :
  ~ fields_fit ver cmd seq opcode ->
  _pack_packet ver cmd seq opcode P = Raise OverflowError.
Proof.
  intros Hnf. unfold _pack_packet, fields_fit in *.
  destruct (to_bytes_cases 1 ver) as [[Hv ->] | [_ ->]]; [|reflexivity].
  destruct (to_bytes_cases 2 cmd) as [[Hc ->] | [_ ->]]; [|reflexivity].
  destruct (to_bytes_cases 1 seq) as [[Hs ->] | [_ ->]]; [|reflexivity].
  destruct (to_bytes_cases 2 opcode) as [[Ho ->] | [_ ->]]; [|reflexivity].
  exfalso. apply Hnf.
  change (256 ^ Z.of_nat 1) with 256 in *. change (256 ^ Z.of_nat 2) with 65536 in *.
  auto.
Qed.

Lemma pack_packet_raises ver cmd seq opcode (P : value) e :
  fields_fit ver cmd seq opcode -> packb P = Raise e ->
  _pack_packet ver cmd seq opcode P = Raise e.
Proof.
  intros (Hv & Hc & Hs & Ho) Hp. unfold _pack_packet.
  rewrite (to_bytes_ok 1 ver), (to_bytes_ok 2 cmd), (to_bytes_ok 1 seq),
    (to_bytes_ok 2 opcode) by (simpl; lia).
  cbn [obind]. rewrite Hp. reflexivity.
Qed.

Lemma pack_packet_inv ver cmd seq opcode (P : value) frame :
  _pack_packet ver cmd seq opcode P = Ok frame ->
  fields_fit ver cmd seq opcode /\
  exists s, packb P = Ok s /\ frame = frame_of ver cmd seq opcode s.
Proof.
  intros H.
  assert (Hfit : fields_fit ver cmd seq opcode).
  { unfold fields_fit.
    destruct (Z_le_dec 0 ver), (Z_lt_dec ver 256), (Z_le_dec 0 cmd),
      (Z_lt_dec cmd 65536), (Z_le_dec 0 seq), (Z_lt_dec seq 256),
      (Z_le_dec 0 opcode), (Z_lt_dec opcode 65536);
      try (repeat split; assumption);
      rewrite pack_packet_not_fit in H by (unfold fields_fit; lia);
      discriminate. }
  split; [exact Hfit|].
  destruct (packb P) as [s|e] eqn:Hp.
  - exists s. split; [reflexivity|].
    rewrite (pack_packet_ok _ _ _ _ _ _ Hfit Hp) in H. congruence.
  - rewrite (pack_packet_raises _ _ _ _ _ _ Hfit Hp) in H. discriminate.
Qed.

(** X9. The outcome of [_pack_packet], case by case.  It returns a frame
    if and only if the four header fields fit their widths (version and
    sequence one byte, command and opcode two bytes, none negative) and
    [msgpack.packb] serializes the payload; the frame is then the header
    around the serialized payload.  When a field does not fit it raises
    [OverflowError] whatever the payload.  When the fields fit it raises
    exactly what [msgpack.packb] raises, which can be an [OverflowError]
    too (an integer of 2^64 or more). *)
Theorem pack_packet_cases ver cmd seq opcode (P : value) :
  (forall frame,
     _pack_packet ver cmd seq opcode P = Ok frame <->
     fields_fit ver cmd seq opcode /\
     exists s, packb P = Ok s /\ frame = frame_of ver cmd seq opcode s) /\
  (forall e,
     _pack_packet ver cmd seq opcode P = Raise e <->
     (~ fields_fit ver cmd seq opcode /\ e = OverflowError) \/
     (fields_fit ver cmd seq opcode /\ packb P = Raise e)) /\
  (~ fields_fit ver cmd seq opcode ->
   forall P' : value, _pack_packet ver cmd seq opcode P' = Raise OverflowError).
Proof.
  assert (Hd : fields_fit ver cmd seq opcode \/ ~ fields_fit ver cmd seq opcode)
    by (unfold fields_fit; lia).
  split; [|split].
  - intros frame. split.
    + apply pack_packet_inv.
    + intros (Hfit & s & Hp & ->). apply pack_packet_ok; assumption.
  - intros e. split.
    + intros H. destruct Hd as [Hfit | Hnf].
      * right. split; [exact Hfit|].
        destruct (packb P) as [s|e'] eqn:Hp.
        -- rewrite (pack_packet_ok _ _ _ _ _ _ Hfit Hp) in H. discriminate.
        -- rewrite (pack_packet_raises _ _ _ _ _ _ Hfit Hp) in H. exact H.
      * left. split; [exact Hnf|].
        rewrite (pack_packet_not_fit _ _ _ _ _ Hnf) in H. congruence.
    + intros [(Hnf & ->) | (Hfit & Hp)].
      * apply pack_packet_not_fit. exact Hnf.
      * apply pack_packet_raises; assumption.
  - intros Hnf P'. apply pack_packet_not_fit. exact Hnf.
Qed.

(** X10. Every frame [_pack_packet] returns carries its arguments at the
    offsets of the wire format: read back big-endian, byte 0 is the version,
    bytes 1-2 the command, byte 3 the sequence number, bytes 4-5 the opcode;
    the frame is ten bytes longer than the serialized payload, which follows
    the header unchanged. *)
Theorem pack_packet_header_fields ver cmd seq opcode (P : value) frame :
  _pack_packet ver cmd seq opcode P = Ok frame ->
  from_bytes (slice 0 1 frame) = ver /\
  from_bytes (slice 1 3 frame) = cmd /\
  from_bytes (slice 3 4 frame) = seq /\
  from_bytes (slice 4 6 frame) = opcode /\
  packb P = Ok (skipn 10 frame).
Proof.
  intros H. apply pack_packet_inv in H as (Hfit & s & Hp & ->).
  destruct (frame_header_fields ver cmd seq opcode s Hfit) as (Hv & Hc & Hs & Ho & _).
  cbv zeta in *. repeat split; assumption.
Qed.

End PackFacts.

(** ** [close] twice *)

(** X11. [close] is idempotent: a second call changes nothing. *)
Theorem close_idempotent (c : MiniSocketClient) : close (close c) = close c.
Proof.
  rewrite (close_unfold (close c)), (close_unfold c).
  cbn [_socket _seq _pending is_connected ping_interval _recv_task _ping_task
       futures stdout].
  destruct c as [so sq pd ic pi rt pt fs out].
  cbn [_socket _seq _pending is_connected ping_interval _recv_task _ping_task
       futures stdout].
  f_equal.
  - destruct so as [[? ? ? ?]|]; reflexivity.
  - destruct rt; reflexivity.
  - destruct pt; reflexivity.
  - cbv zeta.
    set (fs1 := match rt with Some t => snd (cancel_task t fs) | None => fs end).
    set (fs2 := match pt with Some t => snd (cancel_task t fs1) | None => fs1 end).
    assert (H1 : forall t f, rt = Some t -> task_waiter t = Some f ->
                             fs2 !! f <> Some Pending).
    { intros t f -> Hw. subst fs2 fs1.
      pose proof (cancel_task_not_pending t fs f Hw) as Hn.
      destruct pt; [apply cancel_task_keeps_not_pending|]; exact Hn. }
    assert (H2 : forall t f, pt = Some t -> task_waiter t = Some f ->
                             fs2 !! f <> Some Pending).
    { intros t f -> Hw. subst fs2. apply cancel_task_not_pending. exact Hw. }
    assert (E1 : match option_map (fun t => mkTask true (task_waiter t)) rt with
                 | Some t => snd (cancel_task t fs2)
                 | None => fs2
                 end = fs2).
    { destruct rt as [t|]; [|reflexivity]. cbn [option_map].
      apply cancel_task_noop. cbn [task_waiter]. intros f Hw. eapply H1; eauto. }
    rewrite E1.
    destruct pt as [t|]; [|reflexivity]. cbn [option_map].
    apply cancel_task_noop. cbn [task_waiter]. intros f Hw. eapply H2; eauto.
Qed.

(** ** What one iteration of the receive loop can change *)

Lemma sock_kept_refl c : sock_kept c c.
Proof. unfold sock_kept. destruct (_socket c); auto. Qed.

Lemma sock_kept_trans c1 c2 c3 :
  sock_kept c1 c2 -> sock_kept c2 c3 -> sock_kept c1 c3.
Proof.
  unfold sock_kept.
  destruct (_socket c1), (_socket c2), (_socket c3); try tauto.
  intros (?&?&?) (?&?&?). repeat split; congruence.
Qed.

Lemma with_socket_recv_kept k c :
  sock_kept c (snd (with_socket (sock_recv k) c)).
Proof.
  unfold sock_kept, with_socket, sock_recv.
  destruct (_socket c) as [s|] eqn:Hs; cbn [snd]; [|rewrite Hs; exact I].
  destruct (sock_closed s) eqn:Hcl; cbn [snd set_socket _socket]; [auto|].
  destruct (sock_in s) as [|[[|b bs]|] rest]; cbn [snd set_socket _socket]; auto.
  destruct (length (b :: bs) <=? k)%nat; cbn [snd set_socket _socket sock_out
    sock_closed sock_send_fails]; auto.
Qed.

Lemma recv_exactly_loop_kept fuel n buf c :
  sock_kept c (snd (recv_exactly_loop fuel n buf c)).
Proof.
  revert buf c. induction fuel as [|fuel IH]; intros buf c;
    cbn [recv_exactly_loop]; destruct (length buf <? n)%nat;
    try apply sock_kept_refl.
  unfold bind. pose proof (with_socket_recv_kept (n - length buf) c) as Hk.
  destruct (with_socket (sock_recv (n - length buf)) c) as [[chunk|e] c1];
    cbn [snd] in *; [|exact Hk].
  destruct chunk as [|b chunk]; [exact Hk|].
  eapply sock_kept_trans; [exact Hk | apply IH].
Qed.

Section IterationCases.
Context {MP : Msgpack} {LZ : Lz4Block}.

(** The four ways an iteration ends: it stops the loop, it drops the frame,
    it removes one slot (resolving its future if that is not done), or it
    reports an exception.  In each, apart from that, only the reading side
    of the socket has moved. *)
Lemma recv_iteration_cases c :
  exists cb,
    same_but_socket c cb /\ sock_kept c cb /\
    (recv_iteration c = (true, set_is_connected false cb) \/
     recv_iteration c = (false, cb) \/
     (exists k fut v,
        _pending cb !! k = Some fut /\
        recv_iteration c
        = (false, resolve fut v (set_pending (delete k (_pending cb)) cb))) \/
     (exists e, recv_iteration c = (false, recv_handler e cb))).
Proof.
  unfold recv_iteration, recv_body, bind.
  pose proof (recv_exactly_loop_kept 10 10 [] c) as K1.
  fold (_recv_exactly 10 c) in K1.
  destruct (_recv_exactly 10 c) as [[header|e1] ca] eqn:E1; cbn [snd] in K1.
  2:{ apply recv_exactly_same in E1. exists ca. eauto 10. }
  apply recv_exactly_same in E1.
  destruct header as [|h0 header].
  { exists ca. split; [exact E1|]. split; [exact K1|]. left. reflexivity. }
  set (n := Z.to_nat _).
  pose proof (recv_exactly_loop_kept n n [] ca) as K2.
  fold (_recv_exactly n ca) in K2.
  destruct (_recv_exactly n ca) as [[body|e2] cb] eqn:E2; cbn [snd] in K2;
    apply recv_exactly_same in E2;
    pose proof (same_but_socket_trans _ _ _ E1 E2) as S;
    pose proof (sock_kept_trans _ _ _ K1 K2) as K.
  2:{ exists cb. eauto 10. }
  exists cb. split; [exact S|]. split; [exact K|].
  unfold lift. destruct (_unpack_packet _) as [v|e3]; [|eauto 10].
  unfold get. destruct (_pending cb !! _) as [fut|] eqn:Hp.
  - right. right. left. exists (from_bytes (slice 3 4 (h0 :: header))), fut, v.
    split; [exact Hp | reflexivity].
  - right. left. reflexivity.
Qed.

End IterationCases.

Section Effects.
Context {MP : Msgpack} {LZ : Lz4Block}.

Lemma resolve_fields fut v c :
  _socket (resolve fut v c) = _socket c /\ _seq (resolve fut v c) = _seq c /\
  _pending (resolve fut v c) = _pending c /\
  is_connected (resolve fut v c) = is_connected c /\
  ping_interval (resolve fut v c) = ping_interval c /\
  _recv_task (resolve fut v c) = _recv_task c /\
  _ping_task (resolve fut v c) = _ping_task c /\
  stdout (resolve fut v c) = stdout c /\
  ((futures (resolve fut v c) = futures c /\ futures c !! fut <> Some Pending) \/
   (futures c !! fut = Some Pending /\
    futures (resolve fut v c) = <[fut := Result v]> (futures c))).
Proof.
  unfold resolve. destruct (futures c !! fut) as [[| |]|] eqn:E; cbn;
    repeat split; try (left; split; [reflexivity | congruence]).
  right. split; reflexivity.
Qed.

Lemma recv_iteration_slot_effect c :
  let c' := snd (recv_iteration c) in
  (_pending c' = _pending c /\ futures c' = futures c) \/
  (exists k fut,
     _pending c !! k = Some fut /\ _pending c' = delete k (_pending c) /\
     ((futures c' = futures c /\ futures c !! fut <> Some Pending) \/
      (futures c !! fut = Some Pending /\
       exists v, futures c' = <[fut := Result v]> (futures c)))).
Proof.
  cbv zeta.
  destruct (recv_iteration_cases c)
    as (cb & (_ & Hp & _ & _ & _ & _ & Hf & _) & _ &
        [-> | [-> | [(k & fut & v & Hk & ->) | (e & ->)]]]);
    cbn [snd]; try (left; cbn; split; assumption).
  right. exists k, fut. rewrite Hp in Hk. split; [exact Hk|].
  destruct (resolve_fields fut v (set_pending (delete k (_pending cb)) cb))
    as (_ & _ & Hp' & _ & _ & _ & _ & _ & Hfut).
  rewrite Hp in Hp', Hfut |- *.
  rewrite Hp'. cbn [_pending set_pending]. split; [reflexivity|].
  destruct Hfut as [(Hfe & Hn) | (Hpend & Hfe)]; rewrite Hfe;
    cbn [futures set_pending] in *; rewrite Hf in *; [left | right]; eauto.
Qed.

(** X12. One iteration of the receive loop removes at most one slot from
    the table and changes at most one future: the future of the removed
    slot, and only from pending to a result.  A future that is done
    (resolved or cancelled) is never touched, and no slot is ever added. *)
Theorem recv_iteration_touches_one_slot c :
  let c' := snd (recv_iteration c) in
  (_pending c' = _pending c /\ futures c' = futures c) \/
  (exists k fut,
     _pending c !! k = Some fut /\ _pending c' = delete k (_pending c) /\
     ((futures c' = futures c /\ futures c !! fut <> Some Pending) \/
      (futures c !! fut = Some Pending /\
       exists v, futures c' = <[fut := Result v]> (futures c)))).
Proof. apply recv_iteration_slot_effect. Qed.

Lemma recv_iteration_frame c :
  let c' := snd (recv_iteration c) in
  _seq c' = _seq c /\ ping_interval c' = ping_interval c /\
  _recv_task c' = _recv_task c /\ _ping_task c' = _ping_task c /\
  sock_kept c c' /\
  (is_connected c' = is_connected c \/ is_connected c' = false) /\
  (stdout c' = stdout c \/
   exists e, stdout c' = stdout c ++ [Printed "Recv loop error:" e; Sleep 1]).
Proof.
  cbv zeta.
  destruct (recv_iteration_cases c)
    as (cb & (Hs & _ & Hic & Hpi & Hrt & Hpt & _ & Hout) & K &
        [-> | [-> | [(k & fut & v & Hk & ->) | (e & ->)]]]);
    cbn [snd].
  - cbn. repeat split; auto.
  - repeat split; auto.
  - destruct (resolve_fields fut v (set_pending (delete k (_pending cb)) cb))
      as (Hso & Hsq & _ & Hc & Hp & Hr & Hpg & Ho & _).
    cbn [_socket _seq is_connected ping_interval _recv_task _ping_task stdout
         set_pending] in *.
    rewrite Hsq, Hc, Hp, Hr, Hpg, Ho.
    repeat split; auto.
    unfold sock_kept in *. rewrite Hso. exact K.
  - cbn. rewrite Hout. repeat split; eauto.
Qed.

(** X13. The receive loop only reads: an iteration writes nothing to the
    socket and does not close it, leaves the sequence counter, the ping
    interval and the two tasks as they are, can clear [is_connected] but
    never set it, and prints at most its one error line. *)
Theorem recv_iteration_only_reads c :
  let c' := snd (recv_iteration c) in
  _seq c' = _seq c /\ ping_interval c' = ping_interval c /\
  _recv_task c' = _recv_task c /\ _ping_task c' = _ping_task c /\
  sock_kept c c' /\
  (is_connected c' = is_connected c \/ is_connected c' = false) /\
  (stdout c' = stdout c \/
   exists e, stdout c' = stdout c ++ [Printed "Recv loop error:" e; Sleep 1]).
Proof. apply recv_iteration_frame. Qed.

Lemma send_msg_issue_frame opcode payload c :
  let c' := snd (send_msg_issue opcode payload c) in
  is_connected c' = is_connected c /\ ping_interval c' = ping_interval c /\
  _recv_task c' = _recv_task c /\ _ping_task c' = _ping_task c /\
  stdout c' = stdout c /\
  match _socket c, _socket c' with
  | None, None => True
  | Some s, Some s' =>
      sock_in s' = sock_in s /\ sock_closed s' = sock_closed s /\
      sock_send_fails s' = sock_send_fails s /\
      exists written, sock_out s' = sock_out s ++ written
  | _, _ => False
  end /\
  (futures c' = futures c \/ futures c' = futures c ++ [Pending]) /\
  (forall k f, _pending c !! k = Some f -> k <> _seq c + 1 ->
               _pending c' !! k = Some f) /\
  (forall k f, _pending c' !! k = Some f ->
               _pending c !! k = Some f \/
               (k = _seq c + 1 /\ f = length (futures c) /\
                futures c' = futures c ++ [Pending] /\ _seq c' = _seq c + 1)).
Proof.
  cbv zeta. rewrite send_msg_issue_unfold.
  assert (Hsame : forall s : socket,
            sock_in s = sock_in s /\ sock_closed s = sock_closed s /\
            sock_send_fails s = sock_send_fails s /\
            exists written, sock_out s = sock_out s ++ written)
    by (intros s; repeat split; exists []; rewrite app_nil_r; reflexivity).
  destruct (is_connected c) eqn:Hc.
  2:{ cbn [snd]. rewrite Hc. repeat split; auto.
      destruct (_socket c); auto. }
  destruct (_pack_packet 10 0 (_seq c + 1) opcode payload) as [packet|e].
  2:{ cbn. rewrite Hc. repeat split; auto.
      destruct (_socket c); auto. }
  cbv zeta.
  assert (Hins : forall k f,
            <[_seq c + 1 := length (futures c)]> (_pending c) !! k = Some f ->
            _pending c !! k = Some f \/
            (k = _seq c + 1 /\ f = length (futures c))).
  { intros k f Hk. destruct (decide (k = _seq c + 1)) as [->|Hne].
    - rewrite lookup_insert_eq in Hk. injection Hk as <-. auto.
    - rewrite lookup_insert_ne in Hk by congruence. auto. }
  destruct (_socket c) as [s|] eqn:Hs.
  - unfold sock_sendall.
    destruct (sock_closed s || sock_send_fails s) eqn:Hw; cbn; rewrite Hc;
      repeat split; auto;
      solve [ eexists; reflexivity
            | exists []; symmetry; apply app_nil_r
            | intros k f Hk Hne; rewrite lookup_insert_ne by congruence; exact Hk
            | intros k f Hk; apply Hins in Hk as [Hk | [-> ->]]; auto ].
  - cbn. rewrite Hc, Hs. repeat split; auto.
    + intros k f Hk Hne. rewrite lookup_insert_ne by congruence. exact Hk.
    + intros k f Hk. apply Hins in Hk as [Hk | [-> ->]]; auto.
Qed.

End Effects.

(** ** Invariants over the reachable states *)

Section Invariants.
Context {MP : Msgpack} {LZ : Lz4Block}.

Lemma table_wf_send opcode payload c :
  table_wf c -> table_wf (snd (send_msg_issue opcode payload c)).
Proof.
  intros [H0 Hwf].
  pose proof (send_msg_issue_effect opcode payload c) as Hseq.
  pose proof (send_msg_issue_frame opcode payload c)
    as (_ & _ & _ & _ & _ & _ & Hfut & _ & Hnew).
  cbv zeta in *.
  set (c' := snd (send_msg_issue opcode payload c)) in *.
  assert (Hs : _seq c <= _seq c') by (destruct Hseq as [[-> _] | [-> _]]; lia).
  assert (Hl : (length (futures c) <= length (futures c'))%nat)
    by (destruct Hfut as [-> | ->]; rewrite ?length_app; lia).
  split; [lia|]. intros k f Hk.
  apply Hnew in Hk as [Hk | (-> & -> & Hf & Hsq)].
  - apply Hwf in Hk. lia.
  - rewrite Hf, Hsq, length_app. cbn [length]. lia.
Qed.

Lemma table_wf_recv c : table_wf c -> table_wf (snd (recv_iteration c)).
Proof.
  intros [H0 Hwf].
  pose proof (recv_iteration_frame c) as (Hs & _). cbv zeta in Hs.
  pose proof (recv_iteration_slot_effect c) as Heff. cbv zeta in Heff.
  unfold table_wf. rewrite Hs. split; [exact H0|].
  destruct Heff as [(-> & ->) | (k0 & fut & _ & -> & Hf)]; [exact Hwf|].
  intros k f Hk.
  assert (Hk' : _pending c !! k = Some f).
  { destruct (decide (k0 = k)) as [->|Hne].
    - rewrite lookup_delete_eq in Hk. discriminate.
    - rewrite lookup_delete_ne in Hk by exact Hne. exact Hk. }
  apply Hwf in Hk'.
  destruct Hf as [(-> & _) | (_ & v & ->)]; rewrite ?length_insert; exact Hk'.
Qed.

(** The table is well formed in every state the client reaches. *)
Lemma reachable_wf c : reachable c -> table_wf c.
Proof.
  induction 1 as [ping | env c _ IH | opcode payload c _ IH | c _ IH
                 | c _ IH | c _ IH | c _ IH].
  - split; [cbn; lia|]. intros k f Hk. cbn in Hk.
    rewrite lookup_empty in Hk. discriminate.
  - unfold connect, bind, lift, modify. destruct env; exact IH.
  - apply table_wf_send. exact IH.
  - apply table_wf_recv. exact IH.
  - unfold ping_issue.
    destruct (_ping_task c) as [[[] []]|]; try exact IH.
    destruct (is_connected c); [|exact IH].
    pose proof (table_wf_send 1 (VDict []) c IH) as Hb.
    destruct (send_msg_issue 1 (VDict []) c) as [[fut|e] c']; exact Hb.
  - unfold ping_resume.
    destruct (_ping_task c) as [[[] [fut|]]|]; try exact IH.
    destruct (futures c !! fut) as [[| |]|]; exact IH.
  - destruct IH as [H0 IH]. pose proof (close_fields c) as (Hs & Hp & _).
    unfold table_wf. rewrite Hs, Hp, close_futures_length. split; assumption.
Qed.

(** X15. In every state the client reaches through its methods and loops,
    each slot of the pending table has a sequence number between 1 and the
    counter and names an existing future; so the number the next [send_msg]
    will use is never occupied. *)
Theorem reachable_table_wf c :
  reachable c ->
  table_wf c /\ _pending c !! (_seq c + 1) = None /\ _pending c !! 0 = None.
Proof.
  intros Hr. pose proof (reachable_wf c Hr) as Hwf.
  split; [exact Hwf|]. destruct Hwf as [H0 Hwf]. split.
  - destruct (_pending c !! (_seq c + 1)) as [f|] eqn:E; [|reflexivity].
    apply Hwf in E. lia.
  - destruct (_pending c !! 0) as [f|] eqn:E; [|reflexivity].
    apply Hwf in E. lia.
Qed.


End Invariants.

(** ** Sending: what it leaves alone, and how requests and responses meet *)

Section Sending.
Context {MP : Msgpack} {LZ : Lz4Block}.

(** X14. Whatever its outcome, [send_msg] up to its [await] reads nothing
    from the socket, does not close it, prints nothing, leaves
    [is_connected] and the two tasks as they are, creates at most one
    future and changes none that exists, and leaves every slot under another
    sequence number in place. *)
Theorem send_msg_never_disturbs opcode payload c :
  let c' := snd (send_msg_issue opcode payload c) in
  is_connected c' = is_connected c /\ ping_interval c' = ping_interval c /\
  _recv_task c' = _recv_task c /\ _ping_task c' = _ping_task c /\
  stdout c' = stdout c /\
  match _socket c, _socket c' with
  | None, None => True
  | Some s, Some s' =>
      sock_in s' = sock_in s /\ sock_closed s' = sock_closed s /\
      sock_send_fails s' = sock_send_fails s /\
      exists written, sock_out s' = sock_out s ++ written
  | _, _ => False
  end /\
  (futures c' = futures c \/ futures c' = futures c ++ [Pending]) /\
  (forall k f, _pending c !! k = Some f -> k <> _seq c + 1 ->
               _pending c' !! k = Some f).
Proof.
  pose proof (send_msg_issue_frame opcode payload c) as H. cbv zeta in *.
  destruct H as (? & ? & ? & ? & ? & ? & ? & ? & _). repeat split; assumption.
Qed.

(** X17. A request and its response: after a [send_msg] that went out, when
    the stream holds a whole frame with the request's sequence number that
    decodes to [v], the next iteration of the receive loop gives [v] to the
    caller and frees the slot.  Only the sequence number is compared: the
    version, command and opcode of the response frame are not looked at. *)
Theorem request_response_roundtrip opcode payload c s packet
        rver rcmd ropcode (pl more : bytes) v :
  is_connected c = true ->
  _pack_packet 10 0 (_seq c + 1) opcode payload = Ok packet ->
  _socket c = Some s -> sock_closed s = false -> sock_send_fails s = false ->
  stream_bytes (sock_in s) = frame_of rver rcmd (_seq c + 1) ropcode pl ++ more ->
  fields_fit rver rcmd (_seq c + 1) ropcode ->
  Z.of_nat (length pl) < 2 ^ 24 ->
  _unpack_packet (frame_of rver rcmd (_seq c + 1) ropcode pl) = Ok v ->
  exists fut c1 c2,
    send_msg_issue opcode payload c = (Ok fut, c1) /\
    await_future fut c1 = Suspended /\
    recv_iteration c1 = (false, c2) /\
    await_future fut c2 = Returns v /\
    _pending c2 !! (_seq c + 1) = None.
Proof.
  intros Hc Hp Hs Hcl Hsf HB Hfit Hlen Hu.
  pose proof (send_msg_issue_ok opcode payload c s packet Hc Hp Hs Hcl Hsf) as Hsend.
  match type of Hsend with _ = (_, ?st) => set (c1 := st) in * end.
  assert (Hnew : futures c1 !! length (futures c) = Some Pending).
  { subst c1. cbn [futures]. rewrite lookup_app_r, Nat.sub_diag by lia. reflexivity. }
  destruct (recv_iteration_frame_resolves c1
              (mkSocket (sock_in s) (sock_out s ++ packet) false false)
              rver rcmd (_seq c + 1) ropcode pl more v (length (futures c)))
    as (c2 & s2 & Hit & _ & _ & _ & Hpend & _ & Haw & _); try assumption;
    try reflexivity.
  { subst c1. cbn [_pending]. apply lookup_insert_eq. }
  exists (length (futures c)), c1, c2.
  split; [exact Hsend|].
  split; [unfold await_future; rewrite Hnew; reflexivity|].
  split; [exact Hit|]. split; [exact Haw|].
  rewrite Hpend. apply lookup_delete_eq.
Qed.

(** X18. Requests in flight: [n] requests sent in a row from a counter of
    at most [255 - n] get [n] new futures, all pending, under the next [n]
    sequence numbers, one each; the slots that were in the table under
    numbers up to the old counter are still there. *)
Theorem send_all_slots (reqs : list (Z * value)) c :
  is_connected c = true -> can_send c = true ->
  forallb encodable reqs = true ->
  0 <= _seq c -> _seq c + Z.of_nat (length reqs) <= 255 ->
  exists c',
    send_all reqs c = (Ok (seq (length (futures c)) (length reqs)), c') /\
    _seq c' = _seq c + Z.of_nat (length reqs) /\
    futures c' = futures c ++ repeat Pending (length reqs) /\
    (forall i, (i < length reqs)%nat ->
       _pending c' !! (_seq c + 1 + Z.of_nat i) = Some (length (futures c) + i)%nat) /\
    (forall k f, _pending c !! k = Some f -> k <= _seq c ->
       _pending c' !! k = Some f).
Proof.
  revert c. induction reqs as [|[opcode payload] reqs IH]; intros c Hc Hw Hen H0 H1.
  - exists c. cbn [send_all length seq repeat]. unfold ret.
    rewrite app_nil_r, Z.add_0_r. repeat split; auto. intros i Hi. lia.
  - cbn [forallb] in Hen. apply andb_prop in Hen as [He Hen].
    cbn [length] in H1.
    destruct (encodable_packs (opcode, payload) (_seq c + 1) He ltac:(lia))
      as [packet Hp].
    unfold can_send in Hw. destruct (_socket c) as [s|] eqn:Hs; [|discriminate].
    apply andb_prop in Hw as [Hcl Hsf].
    apply negb_true_iff in Hcl. apply negb_true_iff in Hsf.
    pose proof (send_msg_issue_ok opcode payload c s packet Hc Hp Hs Hcl Hsf) as Hsend.
    match type of Hsend with _ = (_, ?st) => set (c1 := st) in * end.
    destruct (IH c1) as (c' & Hall & Hseq & Hfut & Hslots & Hold);
      try reflexivity; try assumption.
    + cbn. lia.
    + cbn. lia.
    + exists c'. cbn [send_all]. unfold bind at 1. rewrite Hsend.
      unfold bind at 1. rewrite Hall. unfold ret.
      subst c1. cbn [futures _seq _pending] in *.
      rewrite length_app in *. cbn [length seq repeat] in *.
      replace (length (futures c) + 1)%nat with (S (length (futures c))) in * by lia.
      split; [reflexivity|]. split; [lia|].
      split; [rewrite Hfut, <- app_assoc; reflexivity|].
      split.
      * intros [|i] Hi.
        -- rewrite Z.add_0_r, Nat.add_0_r. apply Hold; [apply lookup_insert_eq | lia].
        -- replace (_seq c + 1 + Z.of_nat (S i)) with (_seq c + 1 + 1 + Z.of_nat i) by lia.
           rewrite Hslots by lia. f_equal. lia.
      * intros k f Hk Hle. apply Hold; [|lia].
        rewrite lookup_insert_ne by lia. exact Hk.
Qed.

End Sending.

(** ** [send_msg]: what it registers, writes and returns *)

Section SendClaims.
Context {MP : Msgpack} {LZ : Lz4Block}.




End SendClaims.

(** ** The ping loop once the counter has run out *)

Section PingLoop.
Context {MP : Msgpack} {LZ : Lz4Block}.

(** X19. Once the counter has reached 255 the keepalive is dead: every
    iteration of the ping loop fails in [send_msg] with [OverflowError],
    which the loop prints before sleeping; nothing is written to the socket
    and no slot or future is created, while the connection still counts as
    connected. *)
Theorem pings_after_overflow c (k : nat) :
  is_connected c = true ->
  _ping_task c = Some (mkTask false None) ->
  255 <= _seq c ->
  let ck := Nat.iter k ping_issue c in
  _seq ck = _seq c + Z.of_nat k /\
  _socket ck = _socket c /\ _pending ck = _pending c /\
  futures ck = futures c /\ is_connected ck = true /\
  _ping_task ck = Some (mkTask false None) /\
  ping_interval ck = ping_interval c /\
  stdout ck
  = Nat.iter k
      (fun out => out ++ [Printed "Ping failed:" OverflowError;
                          Sleep (ping_interval c)])
      (stdout c).
Proof.
  intros Hc Hpt Hs. cbv zeta. induction k as [|k IH].
  - change (Nat.iter 0 ping_issue c) with c. rewrite Z.add_0_r.
    repeat split; assumption.
  - rewrite !Nat.iter_succ.
    destruct IH as (Hsq & Hso & Hp & Hf & Hck & Hptk & Hpi & Hout).
    set (ck := Nat.iter k ping_issue c) in *.
    unfold ping_issue. rewrite Hptk, Hck.
    rewrite send_msg_issue_overflow by (assumption || lia).
    cbn [_seq _socket _pending futures is_connected _ping_task ping_interval
         stdout set_stdout set_seq].
    rewrite Hout, Hpi. repeat split; try assumption. lia.
Qed.

End PingLoop.

(** ** The further properties on concrete runs *)

Lemma recv_exactly_full_witness :
  exists s',
    _recv_exactly 10 (one_request_sent chunked_response)
    = (Ok (firstn 10 response_frame),
       set_socket (Some s') (one_request_sent chunked_response)) /\
    stream_bytes (sock_in s') = skipn 10 response_frame ++ [x0a; x00].
Proof.
  destruct (recv_exactly_full 10 (one_request_sent chunked_response)
              (sent_socket chunked_response) eq_refl eq_refl)
    as (s' & E & HB & _).
  - vm_compute. lia.
  - exists s'. split; [exact E | exact HB].
Defined.

Lemma recv_exactly_short_at_eof_witness :
  exists s',
    _recv_exactly 10 (one_request_sent [Chunk [x01; x02]; Chunk []])
    = (Ok [x01; x02],
       set_socket (Some s') (one_request_sent [Chunk [x01; x02]; Chunk []])).
Proof.
  destruct (recv_exactly_short_at_eof 10
              (one_request_sent [Chunk [x01; x02]; Chunk []])
              (sent_socket [Chunk [x01; x02]; Chunk []]) eq_refl eq_refl)
    as (s' & E & _).
  - vm_compute. lia.
  - reflexivity.
  - exists s'. exact E.
Defined.

Lemma recv_exactly_error_discards_witness :
  exists s',
    _recv_exactly 10 (one_request_sent [Chunk [x01; x02]; ReadError; Chunk [x03]])
    = (Raise OSError,
       set_socket (Some s')
         (one_request_sent [Chunk [x01; x02]; ReadError; Chunk [x03]])) /\
    sock_in s' = [Chunk [x03]].
Proof.
  destruct (recv_exactly_error_discards 10
              (one_request_sent [Chunk [x01; x02]; ReadError; Chunk [x03]])
              (sent_socket [Chunk [x01; x02]; ReadError; Chunk [x03]])
              eq_refl eq_refl)
    as (s' & E & Hin & _).
  - vm_compute. lia.
  - reflexivity.
  - exists s'. split; [exact E | exact Hin].
Defined.

Lemma recv_iteration_complete_frame_witness :
  exists c' s',
    recv_iteration (one_request_sent chunked_response) = (false, c') /\
    _socket c' = Some s' /\ stream_bytes (sock_in s') = [x0a; x00] /\
    await_future 0 c' = Returns response_payload.
Proof.
  destruct (recv_iteration_complete_frame (one_request_sent chunked_response)
              (sent_socket chunked_response) 10 0 1 6 response_bytes [x0a; x00]
              response_payload 0%nat)
    as (c' & s' & Hit & Hs & HB & _ & _ & _ & Haw & _);
    try (vm_compute; reflexivity).
  - unfold fields_fit. lia.
  - exists c', s'. auto.
Defined.

Lemma recv_iteration_unmatched_dropped_witness :
  exists s',
    recv_iteration (connected chunked_response)
    = (false, set_socket (Some s') (connected chunked_response)) /\
    stream_bytes (sock_in s') = [x0a; x00].
Proof.
  destruct (recv_iteration_unmatched_dropped (connected chunked_response)
              (fresh_socket chunked_response) 10 0 1 6 response_bytes [x0a; x00]
              response_payload)
    as (s' & Hit & HB & _); try (vm_compute; reflexivity).
  - unfold fields_fit. lia.
  - exists s'. auto.
Defined.

Lemma unpack_packet_no_payload_witness :
  _unpack_packet [] = Ok VNone /\
  _unpack_packet ([x0a; x00; x00; x01; x00; x06; xff; x00; x00; x00] ++ [xc1; xc1])
  = Ok VNone.
Proof.
  split; apply unpack_packet_no_payload.
  - left. cbn. lia.
  - right. vm_compute. reflexivity.
Defined.

Lemma recv_truncated_header_resolves_none_witness :
  exists c',
    recv_iteration (one_request_sent [Chunk [x0a; x00; x00; x01; x00]]) = (false, c') /\
    await_future 0 c' = Returns VNone /\
    fst (_recv_loop 2 (one_request_sent [Chunk [x0a; x00; x00; x01; x00]])) = Stopped.
Proof.
  destruct (recv_truncated_header_resolves_none
              (one_request_sent [Chunk [x0a; x00; x00; x01; x00]])
              (sent_socket [Chunk [x0a; x00; x00; x01; x00]]) 0%nat
              eq_refl eq_refl eq_refl)
    as (c' & Hit & _ & Haw & _ & Hloop); try (vm_compute; reflexivity).
  - vm_compute. lia.
  - exists c'. rewrite (Hloop 0%nat). auto.
Defined.

Lemma pack_packet_cases_witness :
  _pack_packet 10 0 256 1 (VDict []) = Raise OverflowError /\
  _pack_packet 10 0 1 1 (VInt (2 ^ 64)) = Raise OverflowError /\
  _pack_packet 10 0 1 1 (VDict []) = Ok (frame_of 10 0 1 1 [x80]).
Proof.
  split; [|split].
  - apply (proj2 (proj2 (pack_packet_cases 10 0 256 1 (VDict [])))).
    unfold fields_fit. lia.
  - apply (proj1 (proj2 (pack_packet_cases 10 0 1 1 (VInt (2 ^ 64))))).
    right. split; [unfold fields_fit; lia | reflexivity].
  - apply (proj1 (pack_packet_cases 10 0 1 1 (VDict []))).
    split; [unfold fields_fit; lia|]. exists [x80]. split; reflexivity.
Defined.

Lemma pack_packet_header_fields_witness :
  let frame := frame_of 10 0 1 17 sa_json_bytes in
  from_bytes (slice 0 1 frame) = 10 /\
  from_bytes (slice 1 3 frame) = 0 /\
  from_bytes (slice 3 4 frame) = 1 /\
  from_bytes (slice 4 6 frame) = 17 /\
  packb sa_json = Ok (skipn 10 frame).
Proof.
  apply (pack_packet_header_fields 10 0 1 17 sa_json). vm_compute. reflexivity.
Defined.

Lemma one_request_sent_reachable evs : reachable (one_request_sent evs).
Proof. exact (reach_send _ _ _ (reach_connect _ _ (reach_init 30))). Qed.




Lemma reachable_table_wf_witness :
  table_wf (one_request_sent []) /\
  _pending (one_request_sent []) !! (_seq (one_request_sent []) + 1) = None /\
  _pending (one_request_sent []) !! 0 = None.
Proof. apply reachable_table_wf. apply one_request_sent_reachable. Defined.


Lemma request_response_roundtrip_witness :
  exists fut c1 c2,
    send_msg_issue 6 (VDict []) (connected chunked_response) = (Ok fut, c1) /\
    await_future fut c1 = Suspended /\
    recv_iteration c1 = (false, c2) /\
    await_future fut c2 = Returns response_payload /\
    _pending c2 !! (_seq (connected chunked_response) + 1) = None.
Proof.
  apply (request_response_roundtrip 6 (VDict []) (connected chunked_response)
           (fresh_socket chunked_response)
           [x0a; x00; x00; x01; x00; x06; x00; x00; x00; x01; x80]
           10 0 6 response_bytes [x0a; x00] response_payload);
    try (vm_compute; reflexivity).
  unfold fields_fit. vm_compute. repeat split; discriminate.
Defined.

Lemma send_all_slots_witness :
  exists c',
    send_all (pings 3) (connected []) = (Ok [0; 1; 2]%nat, c') /\
    _seq c' = 3 /\ futures c' = [Pending; Pending; Pending] /\
    _pending c' !! 1 = Some 0%nat /\ _pending c' !! 2 = Some 1%nat /\
    _pending c' !! 3 = Some 2%nat.
Proof.
  destruct (send_all_slots (pings 3) (connected []))
    as (c' & Hall & Hseq & Hfut & Hslots & _); try (vm_compute; reflexivity).
  - vm_compute. discriminate.
  - vm_compute. discriminate.
  - exists c'. split; [exact Hall|]. split; [exact Hseq|]. split; [exact Hfut|].
    split; [exact (Hslots 0%nat ltac:(cbn; lia))|].
    split; [exact (Hslots 1%nat ltac:(cbn; lia))|].
    exact (Hslots 2%nat ltac:(cbn; lia)).
Defined.

Lemma pings_after_overflow_witness :
  let c2 := Nat.iter 2 ping_issue worn_out in
  _seq c2 = 257 /\ _socket c2 = _socket worn_out /\
  _pending c2 = _pending worn_out /\
  stdout c2
  = [Printed "Ping failed:" OverflowError; Sleep 30;
     Printed "Ping failed:" OverflowError; Sleep 30].
Proof.
  assert (H1 : is_connected worn_out = true) by (vm_compute; reflexivity).
  assert (H2 : _ping_task worn_out = Some (mkTask false None))
    by (vm_compute; reflexivity).
  assert (H3 : 255 <= _seq worn_out) by (vm_compute; discriminate).
  destruct (pings_after_overflow worn_out 2 H1 H2 H3)
    as (Hs & Hso & Hp & _ & _ & _ & _ & Hout).
  cbv zeta. split; [rewrite Hs; vm_compute; reflexivity|].
  split; [exact Hso|]. split; [exact Hp|].
  rewrite Hout. vm_compute. reflexivity.
Defined.
